(** * Web updates and deep links of the Qt wallet front end

    A shallow embedding of [WebUpdates.hpp] and of the update and URL
    handling code of [MainWindow.cpp], with the properties the
    specification states about them.

    Conventions of the embedding.
    - [uint8_t] and [fc::time_point_sec] values are integers in [Z]; the one
      place where the code can leave the range ([_minorVersion + 1] stored
      into a [uint8_t]) has its wrap-around written out.
    - [std::string], [QByteArray] and [std::vector<char>] are byte strings
      ([string]); compact signatures, digests, keys and addresses are the
      byte strings that represent them. A [QString] is the byte string of
      its UTF-8 form, the one [toStdString()] gives: looking for the
      characters [:] and [/] and cutting at them is the same on these
      bytes as on the characters of the text. The case mapping of
      [QString::toLower] is Qt's and a field of [Collaborators].
    - [std::unordered_set] is [gset], [std::unordered_map] is [gmap], and
      [std::set<UpdateDetails>] is the list of its elements in iteration
      order.
    - Code that lives outside the repository (fc, bts, Qt, the build's
      macros) is a field of the class [Collaborators]; a call that can
      throw returns an [option]. Logging calls are not modelled.
    - [MainWindow.hpp] is not among the sources. The version members of
      the window are taken to hold byte values like the fields of an
      entry, the default of [promptToUnlock] is a parameter, and the
      window has its client wrapper with its HTTP endpoint. The client
      and its wallet may be missing; a call through one of these pointers
      while it is null has no defined result and is [None].
    - File operations succeed, and what the user answers in a dialog is an
      argument of the function that shows it. *)

From Stdlib Require Import ZArith String Ascii List Lia Sorted.
From stdpp Require Import base gmap sets strings list pretty.

Open Scope string_scope.
Open Scope Z_scope.

(** ** WebUpdates.hpp *)

Definition WEB_UPDATES_MANIFEST_URL : string := "http://dacplay.org/manifest.json".
Definition WEB_UPDATES_SIGNATURE_REQUIREMENT : nat := 2.

Module WebUpdateManifest.

Record UpdateDetails := {
  majorVersion : Z;
  forkVersion : Z;
  minorVersion : Z;
  patchVersion : Z;
  signatures : gset string;
  releaseNotes : string;
  updatePackageUrl : string;
  timestamp : Z
}.

(** The default constructor: version 0.4.16-a, everything else empty. *)
Definition UpdateDetails_default : UpdateDetails :=
  {| majorVersion := 0; forkVersion := 4; minorVersion := 16;
     patchVersion := 97 (* 'a' *);
     signatures := ∅; releaseNotes := ""; updatePackageUrl := "";
     timestamp := 0 |}.

(** [operator<] *)
Definition lt (a other : UpdateDetails) : bool :=
  if negb (majorVersion a =? majorVersion other)
  then majorVersion a <? majorVersion other
  else if negb (forkVersion a =? forkVersion other)
  then forkVersion a <? forkVersion other
  else if negb (minorVersion a =? minorVersion other)
  then minorVersion a <? minorVersion other
  else patchVersion a <? patchVersion other.

(** [ud.signatures.clear()] on the copy made by [signable_string]. *)
Definition clear_signatures (ud : UpdateDetails) : UpdateDetails :=
  {| majorVersion := majorVersion ud; forkVersion := forkVersion ud;
     minorVersion := minorVersion ud; patchVersion := patchVersion ud;
     signatures := ∅;
     releaseNotes := releaseNotes ud;
     updatePackageUrl := updatePackageUrl ud;
     timestamp := timestamp ud |}.

(** The version quadruple of an entry. *)
Definition version (ud : UpdateDetails) : Z * Z * Z * Z :=
  (majorVersion ud, forkVersion ud, minorVersion ud, patchVersion ud).

(** [std::set<UpdateDetails> updates], in iteration order. *)
Record t := { updates : list UpdateDetails }.

(** [std::set::insert]: the element goes before the first element that
    is greater; an element equivalent under [operator<] is kept and the
    new one dropped. *)
Fixpoint set_insert (x : UpdateDetails) (s : list UpdateDetails)
  : list UpdateDetails :=
  match s with
  | [] => [x]
  | y :: s' =>
      if lt x y then x :: y :: s'
      else if lt y x then y :: set_insert x s'
      else y :: s'
  end.

(** The set built from the entries of the JSON array, in document order. *)
Definition set_of_entries (entries : list UpdateDetails) : list UpdateDetails :=
  foldl (λ s x, set_insert x s) [] entries.

(** [std::set::lower_bound]: the position of the first element that is
    not less than the key; the length of the list stands for [end()]. *)
Fixpoint lower_bound (s : list UpdateDetails) (key : UpdateDetails) : nat :=
  match s with
  | [] => O
  | y :: s' => if lt y key then S (lower_bound s' key) else O
  end.

(** The invariant of the set: ascending, no two entries of one version. *)
Definition sorted (s : list UpdateDetails) : Prop :=
  StronglySorted (λ a b, lt a b = true) s.

End WebUpdateManifest.

Import WebUpdateManifest.

(** ** The wallet of the client *)

(** The wallet of the client, as far as this code observes it. The
    wallet is code of bts and not among the sources: [lock] and [unlock]
    have the plain meaning of their names, a wallet that is open is
    unlocked by its password and by nothing else; what its other calls
    do is left to [Collaborators]. *)
Record wallet := {
  is_open : bool;
  is_unlocked : bool;
  wallet_password : string;
  (** the names [wallet_list_accounts()] returns *)
  wallet_accounts : list string
}.

(** [wallet::lock] *)
Definition wallet_lock (w : wallet) : wallet :=
  {| is_open := is_open w; is_unlocked := false;
     wallet_password := wallet_password w;
     wallet_accounts := wallet_accounts w |}.

(** [wallet::unlock(password, timeout)]: [None] when it throws. *)
Definition wallet_unlock (password : string) (w : wallet) : option wallet :=
  if is_open w && String.eqb password (wallet_password w)
  then Some {| is_open := true; is_unlocked := true;
               wallet_password := wallet_password w;
               wallet_accounts := wallet_accounts w |}
  else None.

(** ** Code outside the repository *)

Class Collaborators := {
  (** macros of the build, [bts::utilities::git_revision_unix_timestamp] *)
  BTS_ADDRESS_PREFIX : string;
  CUSTOM_URL_SCHEME : string;
  git_revision_unix_timestamp : Z;
  (** the default of [promptToUnlock] in the declaration of
      [walletIsUnlocked] (MainWindow.hpp) *)
  promptToUnlock_default : bool;
  (** [fc::sha256] of a byte string *)
  sha256_hash : string → string;
  (** [bts::blockchain::address(fc::ecc::public_key(signature, hash, false))];
      [None] when the key cannot be reconstructed and the constructor throws *)
  recover_address : string → string → option string;
  (** [fc::json::to_string] on an [UpdateDetails] *)
  json_to_string : UpdateDetails → string;
  (** [fc::json::from_string(data).as<WebUpdateManifest>()]: the entries of
      the array in document order, [None] when it throws *)
  json_manifest_entries : string → option (list UpdateDetails);
  (** [fc::lzma_decompress], [None] when it throws *)
  lzma_decompress : string → option string;
  (** [fc::raw::unpack] into a vector of (name, content) pairs *)
  raw_unpack : string → option (list (string * string));
  (** [QString::toInt(&ok)] and [QString::number(uint32_t)] *)
  QString_toInt : string → option Z;
  QString_number : Z → string;
  (** [QString::toLower]: the lower-case form of a text by the case
      mapping of Unicode, which also maps letters outside ASCII (the
      Kelvin sign, for one, to [k]) *)
  QString_toLower : string → string;
  (** a lower-case form is its own lower-case form, and so is the empty
      text *)
  QString_toLower_idemp :
    ∀ text, QString_toLower (QString_toLower text) = QString_toLower text;
  QString_toLower_empty : QString_toLower "" = "";
  (** [QUrl(text).query()], as the items a [QUrlQuery] reads from it *)
  QUrl_query : string → list (string * string);
  (** [fc::variant(text).as<public_key_type>()] *)
  parse_public_key : string → option string;
  (** [fc::ecc::public_key(fc::variant(text).as<compact_signature>(), digest)] *)
  recover_public_key : string → string → option string;
  (** [private_key::get_public_key], [private_key::get_shared_secret] *)
  get_public_key : string → string;
  get_shared_secret : string → string → option string;
  (** [wallet_sign_hash(account, digest)] of the client on its wallet;
      [None] when it throws *)
  wallet_sign_hash : wallet → string → string → option string;
  (** text forms: [fc::variant(x).as_string()], [fc::sha512::str()] *)
  as_string : string → string
}.

(** ** The state [MainWindow.cpp] works on *)

Inductive icon := Information | Question | Warning | Critical.

(** What the window does to its surroundings, in the order it does it.
    [OpenInExternalBrowser url query fragment]: the [QUrl] made from the
    text [url], after [setQuery] with the items [query] and
    [setFragment(fragment)] have replaced the query and the fragment the
    text had, is given to [Utilities::open_in_external_browser]. *)
Inductive effect :=
| MessageBox (i : icon) (title : string)
| UnlockPrompt
| AccountChooser (accounts : list string)
| WebViewLoad (url : string)
| WebViewSetFocus
| WebViewReload
| EvaluateJavaScript (script : string)
| NetworkGet (url : string)
| FinishedCheckCallback
| OpenInExternalBrowser (url : string) (query : list (string * string))
    (fragment : string).

(** The descriptor file: [fc::json::save_to_file] followed by
    [fc::json::from_file(..).as<UpdateDetails>()] gives the entry back, so
    a readable file is the entry it holds; any other content makes the
    reader throw. *)
Inductive json_file :=
| Descriptor (ud : UpdateDetails)
| Unreadable.

Record MainWindow := {
  _majorVersion : Z;
  _forkVersion : Z;
  _minorVersion : Z;
  _patchVersion : Z;
  _webUpdateDescription : UpdateDetails;
  (** [web.json] and [web.dat] in the data directory; [None]: no such file *)
  web_json : option json_file;
  web_dat : option string;
  (** the package set with [ClientWrapper::set_web_package] *)
  web_package : gmap string string;
  (** the wallet behind [clientWrapper()->get_client()->get_wallet()];
      [None] while one of these pointers is null *)
  client_wallet : option wallet;
  (** [*clientWrapper()->get_httpd_endpoint()] as a string *)
  httpd_endpoint : string;
  (** a [QTimer::singleShot(0, this, SLOT(loadWebUpdates()))] is queued *)
  pending_loadWebUpdates : bool;
  effects : list effect
}.

(** [_webUpdateDescription = ud] *)
Definition set_webUpdateDescription (ud : UpdateDetails) (this : MainWindow)
  : MainWindow :=
  {| _majorVersion := _majorVersion this;
     _forkVersion := _forkVersion this;
     _minorVersion := _minorVersion this;
     _patchVersion := _patchVersion this;
     _webUpdateDescription := ud;
     web_json := web_json this;
     web_dat := web_dat this;
     web_package := web_package this;
     client_wallet := client_wallet this;
     httpd_endpoint := httpd_endpoint this;
     pending_loadWebUpdates := pending_loadWebUpdates this;
     effects := effects this |}.

(** [_patchVersion = p] *)
Definition set_patchVersion (p : Z) (this : MainWindow)
  : MainWindow :=
  {| _majorVersion := _majorVersion this;
     _forkVersion := _forkVersion this;
     _minorVersion := _minorVersion this;
     _patchVersion := p;
     _webUpdateDescription := _webUpdateDescription this;
     web_json := web_json this;
     web_dat := web_dat this;
     web_package := web_package this;
     client_wallet := client_wallet this;
     httpd_endpoint := httpd_endpoint this;
     pending_loadWebUpdates := pending_loadWebUpdates this;
     effects := effects this |}.

(** Writes ([Some]) or removes ([None]) [web.json]. *)
Definition set_web_json (f : option json_file) (this : MainWindow)
  : MainWindow :=
  {| _majorVersion := _majorVersion this;
     _forkVersion := _forkVersion this;
     _minorVersion := _minorVersion this;
     _patchVersion := _patchVersion this;
     _webUpdateDescription := _webUpdateDescription this;
     web_json := f;
     web_dat := web_dat this;
     web_package := web_package this;
     client_wallet := client_wallet this;
     httpd_endpoint := httpd_endpoint this;
     pending_loadWebUpdates := pending_loadWebUpdates this;
     effects := effects this |}.

(** Writes ([Some]) or removes ([None]) [web.dat]. *)
Definition set_web_dat (f : option string) (this : MainWindow)
  : MainWindow :=
  {| _majorVersion := _majorVersion this;
     _forkVersion := _forkVersion this;
     _minorVersion := _minorVersion this;
     _patchVersion := _patchVersion this;
     _webUpdateDescription := _webUpdateDescription this;
     web_json := web_json this;
     web_dat := f;
     web_package := web_package this;
     client_wallet := client_wallet this;
     httpd_endpoint := httpd_endpoint this;
     pending_loadWebUpdates := pending_loadWebUpdates this;
     effects := effects this |}.

(** [ClientWrapper::set_web_package] *)
Definition set_web_package (p : gmap string string) (this : MainWindow)
  : MainWindow :=
  {| _majorVersion := _majorVersion this;
     _forkVersion := _forkVersion this;
     _minorVersion := _minorVersion this;
     _patchVersion := _patchVersion this;
     _webUpdateDescription := _webUpdateDescription this;
     web_json := web_json this;
     web_dat := web_dat this;
     web_package := p;
     client_wallet := client_wallet this;
     httpd_endpoint := httpd_endpoint this;
     pending_loadWebUpdates := pending_loadWebUpdates this;
     effects := effects this |}.

(** The wallet after a call that changes it. *)
Definition set_client_wallet (w : option wallet) (this : MainWindow)
  : MainWindow :=
  {| _majorVersion := _majorVersion this;
     _forkVersion := _forkVersion this;
     _minorVersion := _minorVersion this;
     _patchVersion := _patchVersion this;
     _webUpdateDescription := _webUpdateDescription this;
     web_json := web_json this;
     web_dat := web_dat this;
     web_package := web_package this;
     client_wallet := w;
     httpd_endpoint := httpd_endpoint this;
     pending_loadWebUpdates := pending_loadWebUpdates this;
     effects := effects this |}.

(** Queues or dequeues the single-shot call of [loadWebUpdates]. *)
Definition set_pending_loadWebUpdates (b : bool) (this : MainWindow)
  : MainWindow :=
  {| _majorVersion := _majorVersion this;
     _forkVersion := _forkVersion this;
     _minorVersion := _minorVersion this;
     _patchVersion := _patchVersion this;
     _webUpdateDescription := _webUpdateDescription this;
     web_json := web_json this;
     web_dat := web_dat this;
     web_package := web_package this;
     client_wallet := client_wallet this;
     httpd_endpoint := httpd_endpoint this;
     pending_loadWebUpdates := b;
     effects := effects this |}.

(** Appends one effect to the trace. *)
Definition emit (e : effect) (this : MainWindow)
  : MainWindow :=
  {| _majorVersion := _majorVersion this;
     _forkVersion := _forkVersion this;
     _minorVersion := _minorVersion this;
     _patchVersion := _patchVersion this;
     _webUpdateDescription := _webUpdateDescription this;
     web_json := web_json this;
     web_dat := web_dat this;
     web_package := web_package this;
     client_wallet := client_wallet this;
     httpd_endpoint := httpd_endpoint this;
     pending_loadWebUpdates := pending_loadWebUpdates this;
     effects := effects this ++ [e] |}.

(** How a call that yields a value ends: it returns, or an exception
    leaves it. *)
Inductive result (A : Type) :=
| Returned (a : A)
| Threw.
Arguments Returned {A} a.
Arguments Threw {A}.

(** How a [void] member function ends; the state is the one it leaves. *)
Inductive exit := Normal | Exception.

(** ** Signature verification *)

Section Verification.
Context {env : Collaborators}.

Definition WEB_UPDATES_SIGNING_KEYS : gset string :=
  {[ BTS_ADDRESS_PREFIX +:+ "4ucXsqrD7uvPF4oaQGZtyapdbgZfGMrcP";
     BTS_ADDRESS_PREFIX +:+ "HmsVUBDcWxM1hR3VZ6UCeXFUdgy9u9XLx";
     BTS_ADDRESS_PREFIX +:+ "88fzLmtm2ahKdFQYhgmHWynXkoMKYmZmd";
     BTS_ADDRESS_PREFIX +:+ "Q3axJzb5S9ZNizH7hJoZFQQpeWmvq5Qtu" ]}.

(** [UpdateDetails::signable_string] *)
Definition signable_string (this : UpdateDetails) : string :=
  let ud := this in
  let ud := clear_signatures ud in
  json_to_string ud.

(** [fc::sha256::encoder]: the bytes written so far; [result] hashes them. *)
Record encoder := { written : string }.
Definition encoder_new : encoder := {| written := "" |}.
Definition encoder_write (data : string) (enc : encoder) : encoder :=
  {| written := written enc +:+ data |}.
Definition encoder_result (enc : encoder) : string := sha256_hash (written enc).

(** The digest [verifyUpdateSignature] checks the signatures against. *)
Definition signable_hash (ud : UpdateDetails) (updatePackage : string) : string :=
  let enc := encoder_new in
  let enc := encoder_write updatePackage enc in
  let desc := signable_string ud in
  let enc := encoder_write desc enc in
  encoder_result enc.

(** The loop over the signatures: every recovered address is erased from
    the copy of the signing keys; a signature with no key throws. The set
    is walked in the order of [elements]; the outcome is the same in any
    order ([erase_signers_Some], [erase_signers_None]). *)
Fixpoint erase_signers (hash : string) (sigs : list string)
    (authorized_signers : gset string) : option (gset string) :=
  match sigs with
  | [] => Some authorized_signers
  | signature :: sigs' =>
      match recover_address signature hash with
      | Some a => erase_signers hash sigs' (authorized_signers ∖ {[ a ]})
      | None => None
      end
  end.

Definition verifyUpdateSignature (this : MainWindow) (updatePackage : string)
  : result bool :=
  let ud := _webUpdateDescription this in
  if (size (signatures ud) <? WEB_UPDATES_SIGNATURE_REQUIREMENT)%nat
     || (size WEB_UPDATES_SIGNING_KEYS <? WEB_UPDATES_SIGNATURE_REQUIREMENT)%nat
  then Returned false
  else if timestamp ud <? git_revision_unix_timestamp
  then Returned false
  else
    let hash := signable_hash ud updatePackage in
    let authorized_signers := WEB_UPDATES_SIGNING_KEYS in
    match erase_signers hash (elements (signatures ud)) authorized_signers with
    | None => Threw
    | Some authorized_signers =>
        if (WEB_UPDATES_SIGNATURE_REQUIREMENT <=?
              size WEB_UPDATES_SIGNING_KEYS - size authorized_signers)%nat
        then Returned true
        else Returned false
    end.


(** The addresses the signatures of an entry recover to over a digest. *)
Definition recovered_addresses (ud : UpdateDetails) (hash : string) : gset string :=
  set_omap (λ signature, recover_address signature hash) (signatures ud).

(** The distinct recovered addresses that are signing keys. *)
Definition trusted_signers (ud : UpdateDetails) (hash : string) : gset string :=
  recovered_addresses ud hash ∩ WEB_UPDATES_SIGNING_KEYS.

(** Every signature of the entry recovers to some key. *)
Definition all_recoverable (ud : UpdateDetails) (hash : string) : Prop :=
  ∀ signature,
    signature ∈ signatures ud → is_Some (recover_address signature hash).

(** Two entries that agree on every field but the signature set. *)
Definition differ_only_in_signatures (ud1 ud2 : UpdateDetails) : Prop :=
  version ud1 = version ud2 ∧
  releaseNotes ud1 = releaseNotes ud2 ∧
  updatePackageUrl ud1 = updatePackageUrl ud2 ∧
  timestamp ud1 = timestamp ud2.

End Verification.

(** ** Checking for, installing and removing web updates *)

Section Updates.
Context {env : Collaborators}.

(** [showNoUpdateAlert] *)
Definition showNoUpdateAlert (this : MainWindow) : MainWindow :=
  emit (MessageBox Information "Update") this.

(** The start of [checkWebUpdates]: a descriptor without a package, or a
    package without a descriptor, is deleted; then the manifest is
    requested. [queryString] is the query built from the application id,
    the version and the platform. *)
Definition checkWebUpdates (queryString : string) (this : MainWindow)
  : MainWindow :=
  let manifestUrl := WEB_UPDATES_MANIFEST_URL +:+ queryString in
  let this :=
    if xorb (bool_decide (is_Some (web_json this)))
            (bool_decide (is_Some (web_dat this)))
    then
      let this :=
        if bool_decide (is_Some (web_json this))
        then set_web_json None this else this in
      let this :=
        if bool_decide (is_Some (web_dat this))
        then set_web_dat None this else this in
      this
    else this in
  emit (NetworkGet manifestUrl) this.

(** The look-up key of the manifest reply: a default-constructed entry
    with the version of the executable and the next minor version; the
    sum is stored into a [uint8_t]. *)
Definition probe (this : MainWindow) : UpdateDetails :=
  let update := UpdateDetails_default in
  {| majorVersion := _majorVersion this;
     forkVersion := _forkVersion this;
     minorVersion := (_minorVersion this + 1) mod 256;
     patchVersion := patchVersion update;
     signatures := signatures update;
     releaseNotes := releaseNotes update;
     updatePackageUrl := updatePackageUrl update;
     timestamp := timestamp update |}.

(** The test the entry before the lower bound has to fail to be taken. *)
Definition rejected (this : MainWindow) (update : UpdateDetails) : bool :=
  negb (majorVersion update =? _majorVersion this)
  || negb (forkVersion update =? _forkVersion this)
  || negb (minorVersion update =? _minorVersion this)
  || (patchVersion update <=? _patchVersion this)
  || (size (signatures update) <? WEB_UPDATES_SIGNATURE_REQUIREMENT)%nat.

(** What the specification asks of the entry before the lower bound. *)
Definition acceptable (this : MainWindow) (candidate : UpdateDetails) : Prop :=
  majorVersion candidate = _majorVersion this ∧
  forkVersion candidate = _forkVersion this ∧
  minorVersion candidate = _minorVersion this ∧
  _patchVersion this < patchVersion candidate ∧
  (WEB_UPDATES_SIGNATURE_REQUIREMENT ≤ size (signatures candidate))%nat.

(** The version of the executable, as an entry. *)
Definition installed (this : MainWindow) : UpdateDetails :=
  {| majorVersion := _majorVersion this;
     forkVersion := _forkVersion this;
     minorVersion := _minorVersion this;
     patchVersion := _patchVersion this;
     signatures := ∅; releaseNotes := ""; updatePackageUrl := "";
     timestamp := 0 |}.

(** The choice of the update in the manifest reply: [lower_bound] of the
    key, [itr == begin()], [--itr], and the test on the entry. *)
Definition select_update (this : MainWindow) (manifest : WebUpdateManifest.t)
  : option UpdateDetails :=
  let update := probe this in
  let itr := lower_bound (updates manifest) update in
  match itr with
  | O => None
  | S itr =>
      match updates manifest !! itr with
      | Some update => if rejected this update then None else Some update
      | None => None
      end
  end.

Record QNetworkReply := { reply_url : string; readAll : string }.

(** The handler connected to [QNetworkAccessManager::finished].
    [installNow] is the answer to the question of the update dialog. *)
Definition checkWebUpdates_finished (showNoUpdatesAlert : bool)
    (finishedCheckCallback : bool) (manifestUrl : string)
    (installNow : bool) (reply : QNetworkReply) (this : MainWindow)
  : exit * MainWindow :=
  let finish (this : MainWindow) :=
    if finishedCheckCallback then emit FinishedCheckCallback this else this in
  let alert (this : MainWindow) :=
    if showNoUpdatesAlert then showNoUpdateAlert this else this in
  if String.eqb (reply_url reply) manifestUrl then
    let data := readAll reply in
    match json_manifest_entries data with
    | None => (Normal, finish (alert this))
    | Some entries =>
        let manifest := {| updates := set_of_entries entries |} in
        match select_update this manifest with
        | None => (Normal, alert this)
        | Some update =>
            let this := set_webUpdateDescription update this in
            let this :=
              emit (NetworkGet (updatePackageUrl (_webUpdateDescription this)))
                this in
            (Normal, finish this)
        end
    end
  else
    let package := readAll reply in
    match verifyUpdateSignature this package with
    | Threw => (Exception, this)
    | Returned false => (Normal, alert this)
    | Returned true =>
        let this := emit (MessageBox Question "Update") this in
        if negb installNow then (Normal, this)
        else
          let this := set_web_dat (Some package) this in
          let this :=
            set_web_json (Some (Descriptor (_webUpdateDescription this))) this in
          let this := set_pending_loadWebUpdates true this in
          (Normal, finish this)
    end.

(** [removeWebUpdates]; [confirmed] is the answer to its question. The
    wallet is reached without a null check: [None] stands for the call
    through a null pointer. *)
Definition removeWebUpdates (confirmed : bool) (this : MainWindow)
  : option MainWindow :=
  let this := emit (MessageBox Question "Update") this in
  if confirmed then
    let this := set_web_json None this in
    let this := set_web_dat None this in
    let this := set_web_package ∅ this in
    match client_wallet this with
    | None => None
    | Some w =>
        let this := set_client_wallet (Some (wallet_lock w)) this in
        Some (emit WebViewReload this)
    end
  else Some this.

(** The loop that fills [webInterfaceMap]. *)
Definition webInterfaceMap_of (deserializedPackage : list (string * string))
  : gmap string string :=
  foldl (λ webInterfaceMap file, <[file.1 := file.2]> webInterfaceMap)
    ∅ deserializedPackage.

Definition loadWebUpdates (this : MainWindow) : exit * MainWindow :=
  match web_json this with
  | None => (Normal, this)
  | Some descriptor =>
      match web_dat this with
      | None => (Normal, this)
      | Some updatePackage =>
          match descriptor with
          | Unreadable => (Exception, this)
          | Descriptor ud =>
              let this := set_webUpdateDescription ud this in
              match verifyUpdateSignature this updatePackage with
              | Threw => (Exception, this)
              | Returned false =>
                  let this := set_web_json None this in
                  let this := set_web_dat None this in
                  (Normal, this)
              | Returned true =>
                  match lzma_decompress updatePackage with
                  | None => (Normal, this)
                  | Some decompressedStream =>
                      match raw_unpack decompressedStream with
                      | None => (Normal, this)
                      | Some deserializedPackage =>
                          let webInterfaceMap :=
                            webInterfaceMap_of deserializedPackage in
                          let this :=
                            match client_wallet this with
                            | Some w =>
                                set_client_wallet (Some (wallet_lock w)) this
                            | None => this
                            end in
                          let this := set_web_package webInterfaceMap this in
                          let this := emit WebViewReload this in
                          let this :=
                            set_patchVersion
                              (patchVersion (_webUpdateDescription this))
                              this in
                          (Normal, this)
                      end
                  end
              end
          end
      end
  end.

(** The event loop runs the queued single-shot call, if there is one. *)
Definition process_pending (this : MainWindow) : exit * MainWindow :=
  if pending_loadWebUpdates this
  then loadWebUpdates (set_pending_loadWebUpdates false this)
  else (Normal, this).

(** A package reply followed by the call it may have queued. *)
Definition package_reply (showNoUpdatesAlert finishedCheckCallback : bool)
    (manifestUrl : string) (installNow : bool) (reply : QNetworkReply)
    (this : MainWindow) : exit * MainWindow :=
  match checkWebUpdates_finished showNoUpdatesAlert finishedCheckCallback
          manifestUrl installNow reply this with
  | (Normal, this) => process_pending this
  | (Exception, this) => (Exception, this)
  end.

End Updates.

(** ** The part of [QString] and [QStringList] the URL code uses *)

Module QString.

Definition size (s : string) : Z := Z.of_nat (String.length s).

(** [indexOf(ch)]: the position of the first occurrence, -1 without one. *)
Fixpoint indexOf (s : string) (ch : ascii) : Z :=
  match s with
  | EmptyString => -1
  | String c s' =>
      if Ascii.eqb c ch then 0
      else let i := indexOf s' ch in if i <? 0 then -1 else i + 1
  end.

(** [left(n)]: the whole string when [n] is negative or not below the size. *)
Definition left (s : string) (n : Z) : string :=
  if (n <? 0) || (size s <=? n) then s
  else String.substring 0 (Z.to_nat n) s.

(** [mid(position)]: empty when the position is beyond the end. *)
Definition mid (s : string) (position : Z) : string :=
  if size s <? position then ""
  else String.substring (Z.to_nat position)
         (String.length s - Z.to_nat position) s.

(** [while (url.startsWith(ch)) url.remove(0, 1)] *)
Fixpoint remove_leading (ch : ascii) (s : string) : string :=
  match s with
  | EmptyString => EmptyString
  | String c s' => if Ascii.eqb c ch then remove_leading ch s' else s
  end.

(** [split(sep, QString::SkipEmptyParts)]; [part] is the part being read. *)
Fixpoint split_from (sep : ascii) (part : string) (s : string) : list string :=
  match s with
  | EmptyString => if String.eqb part "" then [] else [part]
  | String c s' =>
      if Ascii.eqb c sep
      then (if String.eqb part "" then split_from sep "" s'
            else part :: split_from sep "" s')
      else split_from sep (part +:+ String c EmptyString) s'
  end.

Definition split (sep : ascii) (s : string) : list string :=
  split_from sep "" s.

(** [QStringList::join(sep)] *)
Fixpoint join (sep : string) (l : list string) : string :=
  match l with
  | [] => ""
  | [x] => x
  | x :: l' => x +:+ sep +:+ join sep l'
  end.

End QString.

(** ** Deep links *)

Section DeepLinks.
Context {env : Collaborators}.

(** [getViewer()->webView()->load(realurl)] and [setFocus()] at the end
    of [processCustomUrl]. *)
Definition load_and_focus (urlStr : string) (this : MainWindow)
  : MainWindow :=
  emit WebViewSetFocus (emit (WebViewLoad urlStr) this).

Definition processCustomUrl (url : string) (this : MainWindow)
  : MainWindow :=
  if negb (String.eqb
             (QString_toLower (QString.left url (QString.indexOf url ":")))
             CUSTOM_URL_SCHEME)
  then this
  else
    let url := QString.mid url (QString.indexOf url ":" + 1) in
    let url := QString.remove_leading "/" url in
    let components := QString.split "/" url in
    match components with
    | [] => emit (MessageBox Warning "Invalid URL") this
    | component0 :: _ =>
        let urlStr := "http://" +:+ httpd_endpoint this +:+ "/#" in
        let str := QString_toLower component0 in
        if String.eqb str "home" || String.eqb str "delegates"
           || String.eqb str "notes" || String.eqb str "directory"
           || String.eqb str "newcontact" || String.eqb str "preferences"
           || String.eqb str "console" || String.eqb str "help"
        then load_and_focus (urlStr +:+ "/" +:+ str) this
        else if String.eqb str "accounts" then
          match components with
          | [_] => load_and_focus (urlStr +:+ "/accounts") this
          | [_; component1] =>
              load_and_focus (urlStr +:+ "/accounts/" +:+ component1) this
          | _ => load_and_focus urlStr this
          end
        else if String.eqb str "blocks" then
          match components with
          | [_] => load_and_focus (urlStr +:+ "/blocks") this
          | [_; component1] =>
              match QString_toInt component1 with
              | Some n =>
                  let blockNumber := n mod 2 ^ 32 in
                  load_and_focus
                    (urlStr +:+ "/blocks/" +:+ QString_number blockNumber) this
              | None =>
                  load_and_focus urlStr
                    (emit (MessageBox Warning "Invalid Block Number") this)
              end
          | _ => load_and_focus urlStr this
          end
        else this
    end.

(** The scheme test of [processCustomUrl]. *)
Definition has_custom_scheme (url : string) : Prop :=
  QString_toLower (QString.left url (QString.indexOf url ":"))
  = CUSTOM_URL_SCHEME.

(** The components [processCustomUrl] splits a URL into. *)
Definition url_components (url : string) : list string :=
  QString.split "/"
    (QString.remove_leading "/"
       (QString.mid url (QString.indexOf url ":" + 1))).

(** The allow-list of the specification. *)
Definition allow_list : list string :=
  ["home"; "accounts"; "blocks"; "delegates"; "notes"; "directory";
   "newcontact"; "preferences"; "console"; "help"; "login"; "transfer";
   "referral_code"].

(** The answers [walletIsUnlocked] gets from its password dialog, one
    for each time it is shown: a password, or [None] for Cancel. *)
Fixpoint unlock_loop (answers : list (option string)) (w : wallet)
    (this : MainWindow) : wallet * MainWindow :=
  match answers with
  | [] => (w, this)
  | answer :: answers' =>
      let this := emit UnlockPrompt this in
      match answer with
      | None => (w, this)
      | Some password =>
          match wallet_unlock password w with
          | Some w' => (w', this)
          | None => unlock_loop answers' w this
          end
      end
  end.

(** [walletIsUnlocked(promptToUnlock)]. The dialog is shown as long as
    the user neither cancels nor enters the password; a list of answers
    that ends stands for a user who cancels then. The test before
    [is_open()] is on the wrapper, which the window has; the client and
    its wallet are reached without a test: [None] stands for the call
    through a null pointer. *)
Definition walletIsUnlocked (promptToUnlock : bool)
    (answers : list (option string)) (this : MainWindow)
  : option (bool * MainWindow) :=
  match client_wallet this with
  | None => None
  | Some w =>
      if negb (is_open w) then Some (false, this)
      else if is_unlocked w then Some (true, this)
      else if promptToUnlock then
        let '(w, this) := unlock_loop answers w this in
        Some (is_unlocked w, set_client_wallet (Some w) this)
      else Some (is_unlocked w, this)
  end.

(** [navigateTo]; [None] as in [walletIsUnlocked]. *)
Definition navigateTo (path : string) (answers : list (option string))
    (this : MainWindow) : option MainWindow :=
  match walletIsUnlocked promptToUnlock_default answers this with
  | None => None
  | Some (unlocked, this) =>
      if unlocked
      then Some (emit (EvaluateJavaScript ("navigate_to('" +:+ path +:+ "')"))
                   this)
      else Some this
  end.

Definition goToCreateAccount := navigateTo "/create/account".

(** What a login attempt gets from outside the code: the generated
    one-time key, the chain, and the user. *)
Record login_inputs := {
  (** [fc::ecc::private_key::generate()] *)
  generated_key : string;
  (** the name of the account [get_account_record(key)] finds *)
  account_record : string → option string;
  (** ["blockchain_head_block_age"]; [None] when reading it throws *)
  head_block_age : option Z;
  (** the answer to "You are about to log in to ... as ..." *)
  login_confirmed : bool;
  (** the account accepted in the chooser, [None] when it is cancelled *)
  account_chosen : option string;
  (** the answers to the unlock dialog *)
  unlock_answers : list (option string)
}.

Definition getLoginUser (inputs : login_inputs) (serverKey : string)
    (w : wallet) (this : MainWindow) : string * MainWindow :=
  match account_record inputs serverKey with
  | None =>
      let head_block_age :=
        match head_block_age inputs with
        | Some age => age
        | None => 2 ^ 64 - 1
        end in
      if head_block_age <? 1
      then ("", emit (MessageBox Critical "Misconfigured Website") this)
      else ("", emit (MessageBox Warning "Out of Sync") this)
  | Some serverName =>
      match wallet_accounts w with
      | [account] =>
          let this := emit (MessageBox Question "Login") this in
          if login_confirmed inputs then (account, this) else ("", this)
      | [] => ("EMPTY", this)
      | accounts =>
          let this := emit (AccountChooser accounts) this in
          match account_chosen inputs with
          | Some account => (account, this)
          | None => ("", this)
          end
      end
  end.

(** [doLogin]. [None]: the code reads a component the list does not
    have, or goes through the client while it has no wallet. *)
Definition doLogin (inputs : login_inputs) (components : list string)
    (this : MainWindow) : option MainWindow :=
  let invalid := emit (MessageBox Warning "Invalid URL") this in
  let myOneTimeKey := generated_key inputs in
  match components with
  | [] => None
  | component0 :: components' =>
      match parse_public_key component0 with
      | None => Some invalid
      | Some serverOneTimeKey =>
          match components' with
          | [] => None
          | component1 :: returnUrl =>
              match recover_public_key component1
                      (sha256_hash serverOneTimeKey) with
              | None => Some invalid
              | Some serverAccountKey =>
                  match get_shared_secret myOneTimeKey serverOneTimeKey with
                  | None => Some invalid
                  | Some secret =>
                      match client_wallet this with
                      | None => None
                      | Some w =>
                          let '(loginUser, this) :=
                            getLoginUser inputs serverAccountKey w this in
                          if String.eqb loginUser "" then Some this
                          else if String.eqb loginUser "EMPTY" then
                            let this :=
                              emit (MessageBox Warning "No Accounts Available")
                                this in
                            goToCreateAccount (unlock_answers inputs) this
                          else
                            let url :=
                              "http://" +:+ QString.join "/" returnUrl in
                            match wallet_sign_hash w loginUser
                                    (sha256_hash secret) with
                            | None =>
                                Some (emit (MessageBox Warning "Unable to Login")
                                        this)
                            | Some signature =>
                                let query :=
                                  (QUrl_query url
                                   ++ [("client_key",
                                        as_string (get_public_key myOneTimeKey));
                                       ("client_name", loginUser);
                                       ("server_key",
                                        as_string serverOneTimeKey);
                                       ("signed_secret",
                                        as_string signature)])%list in
                                Some (emit (OpenInExternalBrowser url query
                                              (as_string secret)) this)
                            end
                      end
                  end
              end
          end
      end
  end.

End DeepLinks.

(** ** Navigation from the menus and the page *)

Section Navigation.
Context {env : Collaborators}.

(** [goToHomepage]. In this section [None] is the [None] of
    [walletIsUnlocked], if nothing else is said. *)
Definition goToHomepage (answers : list (option string)) (this : MainWindow)
  : option MainWindow :=
  match walletIsUnlocked promptToUnlock_default answers this with
  | None => None
  | Some (unlocked, this) =>
      if unlocked
      then Some (emit (WebViewLoad
                         ("http://" +:+ httpd_endpoint this +:+ "/#/home"))
                   this)
      else Some this
  end.

Definition goToMyAccounts := navigateTo "/accounts".

Definition goToAccount (accountName : string) :=
  navigateTo ("/accounts/" +:+ accountName).

Definition goToAddContact := navigateTo "/newcontact".

(** [goToBlock(uint32_t)]. The wallet is asked for twice, here and in
    [navigateTo]; each time has its own answers. *)
Definition goToBlock (blockNumber : Z) (answers answers' : list (option string))
    (this : MainWindow) : option MainWindow :=
  match walletIsUnlocked promptToUnlock_default answers this with
  | None => None
  | Some (unlocked, this) =>
      if negb unlocked then Some this
      else navigateTo ("/blocks/" +:+ QString_number blockNumber) answers' this
  end.

(** [changeLocation]; [urlstr] is the text of the location bar and
    [fromUserInput] is [QUrl::fromUserInput]. *)
Definition changeLocation (fromUserInput : string → string) (urlstr : string)
    (answers : list (option string)) (this : MainWindow)
  : option MainWindow :=
  match walletIsUnlocked promptToUnlock_default answers this with
  | None => None
  | Some (unlocked, this) =>
      if negb unlocked then Some this
      else if String.eqb
                (QString_toLower
                   (QString.left urlstr (QString.indexOf urlstr ":")))
                CUSTOM_URL_SCHEME
      then Some (processCustomUrl urlstr this)
      else
        let url := fromUserInput urlstr in
        Some (emit WebViewSetFocus (emit (WebViewLoad url) this))
  end.

(** The values [goToTransfer] collects. *)
Record transfer := {
  sender : string;
  amount : string;
  asset : string;
  memo : string
}.

(** The loop of [goToTransfer] over [components.mid(2)]: a name takes
    the token after it as its value, a name that is not known is dropped
    alone, and a last token without a successor ends the loop. *)
Fixpoint transfer_parameters (parameters : list string) (t : transfer)
  : transfer :=
  match parameters with
  | [] => t
  | parameterName :: parameters' =>
      match parameters' with
      | [] => t
      | value :: parameters'' =>
          if String.eqb parameterName "amount" then
            transfer_parameters parameters''
              {| sender := sender t; amount := value; asset := asset t;
                 memo := memo t |}
          else if String.eqb parameterName "memo" then
            transfer_parameters parameters''
              {| sender := sender t; amount := amount t; asset := asset t;
                 memo := value |}
          else if String.eqb parameterName "from" then
            transfer_parameters parameters''
              {| sender := value; amount := amount t; asset := asset t;
                 memo := memo t |}
          else if String.eqb parameterName "asset" then
            transfer_parameters parameters''
              {| sender := sender t; amount := amount t; asset := value;
                 memo := memo t |}
          else transfer_parameters parameters' t
      end
  end.

(** [goToTransfer]; [arg] is [QString::arg(const QString&)]. [None]
    also when the list is empty and its first component is read. *)
Definition goToTransfer (arg : string → string → string)
    (components : list string) (answers answers' : list (option string))
    (this : MainWindow) : option MainWindow :=
  match walletIsUnlocked promptToUnlock_default answers this with
  | None => None
  | Some (unlocked, this) =>
      if negb unlocked then Some this
      else
        let parameters := drop 2 components in
        let t :=
          transfer_parameters parameters
            {| sender := ""; amount := ""; asset := ""; memo := "" |} in
        match components with
        | [] => None
        | component0 :: _ =>
            let url :=
              arg (arg (arg (arg (arg
                "/transfer?from=%1&to=%2&amount=%3&asset=%4&memo=%5"
                (sender t)) component0) (amount t)) (asset t)) (memo t) in
            navigateTo url answers' this
        end
  end.

(** The loop of [goToRefCode] over [components.mid(1)]: every name takes
    the token after it, also a name that is not known. [None]: the token
    after the name is taken from an empty list. *)
Fixpoint refcode_parameters (parameters : list string) (faucet code : string)
  : option (string * string) :=
  match parameters with
  | [] => Some (faucet, code)
  | parameterName :: parameters' =>
      match parameters' with
      | [] => None
      | value :: parameters'' =>
          if String.eqb parameterName "faucet"
          then refcode_parameters parameters'' value code
          else if String.eqb parameterName "code"
          then refcode_parameters parameters'' faucet value
          else refcode_parameters parameters'' faucet code
      end
  end.

(** [goToRefCode]; [None] also when the loop fails. *)
Definition goToRefCode (arg : string → string → string)
    (components : list string) (answers answers' : list (option string))
    (this : MainWindow) : option MainWindow :=
  match walletIsUnlocked promptToUnlock_default answers this with
  | None => None
  | Some (unlocked, this) =>
      if negb unlocked then Some this
      else
        let parameters := drop 1 components in
        match refcode_parameters parameters "" "" with
        | None => None
        | Some (faucet, code) =>
            let url :=
              arg (arg "/referral_code?faucet=%1&code=%2" faucet) code in
            navigateTo url answers' this
        end
  end.

End Navigation.

(** ** URLs that arrive before the window is shown *)

Section Deferral.
Context {env : Collaborators}.

(** The window together with [isVisible()] and [_deferredUrl]. *)
Record shell := {
  mainWindow : MainWindow;
  isVisible : bool;
  _deferredUrl : string
}.

Definition deferCustomUrl (url : string) (s : shell) : shell :=
  if isVisible s
  then {| mainWindow := processCustomUrl url (mainWindow s);
          isVisible := isVisible s; _deferredUrl := _deferredUrl s |}
  else {| mainWindow := mainWindow s; isVisible := isVisible s;
          _deferredUrl := url |}.

Definition processDeferredUrl (s : shell) : shell :=
  {| mainWindow := processCustomUrl (_deferredUrl s) (mainWindow s);
     isVisible := isVisible s;
     _deferredUrl := "" |}.

(** The [QEvent::FileOpen] case of [eventFilter], with the [file()] and
    the [url().toString()] of the event. *)
Definition eventFilter_FileOpen (file url_toString : string) (s : shell)
  : shell :=
  let url := file in
  let url := if String.eqb url "" then url_toString else url in
  if isVisible s
  then {| mainWindow := processCustomUrl url (mainWindow s);
          isVisible := isVisible s; _deferredUrl := _deferredUrl s |}
  else deferCustomUrl url s.

(** The handler of [loadFinished] in [prepareStartupSequence]:
    [mainWindow->show()] and [mainWindow->processDeferredUrl()]. *)
Definition loadFinished (s : shell) : shell :=
  let s := {| mainWindow := mainWindow s; isVisible := true;
              _deferredUrl := _deferredUrl s |} in
  processDeferredUrl s.

(** The test [BitSharesApp::run] makes on its arguments before it passes
    the second one on as a URL. *)
Definition url_argument (arguments : list string) : option string :=
  match arguments with
  | _ :: argument1 :: _ =>
      if String.prefix (CUSTOM_URL_SCHEME +:+ ":") argument1
      then Some argument1 else None
  | _ => None
  end.

End Deferral.

(** ** Crash detection and the crash report's log *)

(** [detectCrash] on the settings, a map from keys to values. *)
Definition detectCrash (_settings : gmap string string)
  : bool * gmap string string :=
  let crashState := default "no_crash" (_settings !! "crash_state") in
  let _settings := <["crash_state" := "crashed"]> _settings in
  (String.eqb crashState "crashed", _settings).

Module TLimitedFileBuffer.

Record t := {
  _maxLineCount : nat;
  _buffer : list string
}.

(** The constructor. *)
Definition make (lc : nat) : t := {| _maxLineCount := lc; _buffer := [] |}.

Definition push_back (line : string) (b : t) : t :=
  let buffer := (_buffer b ++ [line])%list in
  {| _maxLineCount := _maxLineCount b;
     _buffer :=
       if (_maxLineCount b <? length buffer)%nat then tail buffer
       else buffer |}.

(** [std::copy] of the lines of a stream through a [back_inserter]. *)
Definition copy (lines : list string) (b : t) : t :=
  foldl (λ b line, push_back line b) b lines.

End TLimitedFileBuffer.

(** ** A concrete instance, for examples

    Stand-ins for the collaborators that can be run: the first character
    of a signature names its signer, the digest is the text itself, an
    entry is serialized field by field, a compressed stream is its content
    after the mark [LZMA:], a stream that is not empty unpacks to a
    package of one file, the lower-case form changes the letters A to Z
    (the texts of the examples are ASCII), no return address has a query,
    and the wallet signs for its accounts while it is open and unlocked. *)

Module Demo.

Definition key1 : string := "XTS4ucXsqrD7uvPF4oaQGZtyapdbgZfGMrcP".
Definition key2 : string := "XTSHmsVUBDcWxM1hR3VZ6UCeXFUdgy9u9XLx".
Definition key3 : string := "XTS88fzLmtm2ahKdFQYhgmHWynXkoMKYmZmd".
Definition key4 : string := "XTSQ3axJzb5S9ZNizH7hJoZFQQpeWmvq5Qtu".

Definition signer (signature hash : string) : option string :=
  match signature with
  | EmptyString => None
  | String "1" _ => Some key1
  | String "2" _ => Some key2
  | String "3" _ => Some key3
  | String "4" _ => Some key4
  | String _ _ => Some "XTSsomebodyElse"
  end.

Definition decompress (stream : string) : option string :=
  if String.prefix "LZMA:" stream
  then Some (String.substring 5 (String.length stream - 5) stream)
  else None.

Definition unpack (stream : string) : option (list (string * string)) :=
  if String.eqb stream "" then None else Some [("index.html", stream)].

Definition to_string (ud : UpdateDetails) : string :=
  pretty (majorVersion ud) +:+ "." +:+ pretty (forkVersion ud) +:+ "."
    +:+ pretty (minorVersion ud) +:+ "-" +:+ pretty (patchVersion ud)
    +:+ "[" +:+ String.concat "," (elements (signatures ud)) +:+ "]"
    +:+ releaseNotes ud +:+ "@" +:+ updatePackageUrl ud
    +:+ "@" +:+ pretty (timestamp ud).

Definition toLower_char (c : ascii) : ascii :=
  let n := nat_of_ascii c in
  if (65 <=? n)%nat && (n <=? 90)%nat then ascii_of_nat (n + 32) else c.

Fixpoint toLower (s : string) : string :=
  match s with
  | EmptyString => EmptyString
  | String c s' => String (toLower_char c) (toLower s')
  end.

Definition toLower_char_idemp (c : ascii)
  : toLower_char (toLower_char c) = toLower_char c :=
  ltac:(destruct c as [[] [] [] [] [] [] [] []]; reflexivity).

Fixpoint toLower_idemp (s : string) : toLower (toLower s) = toLower s :=
  match s with
  | EmptyString => eq_refl
  | String c s' => f_equal2 String (toLower_char_idemp c) (toLower_idemp s')
  end.

Definition sign_hash (w : wallet) (account hash : string) : option string :=
  if is_open w && is_unlocked w && bool_decide (account ∈ wallet_accounts w)
  then Some (account +:+ hash) else None.

Definition collaborators : Collaborators :=
  {| BTS_ADDRESS_PREFIX := "XTS";
     CUSTOM_URL_SCHEME := "xts";
     git_revision_unix_timestamp := 1000;
     promptToUnlock_default := true;
     sha256_hash := λ data, data;
     recover_address := signer;
     json_to_string := to_string;
     json_manifest_entries := λ _, None;
     lzma_decompress := decompress;
     raw_unpack := unpack;
     QString_toInt := λ _, None;
     QString_number := λ _, "0";
     QString_toLower := toLower;
     QString_toLower_idemp := toLower_idemp;
     QString_toLower_empty := eq_refl;
     QUrl_query := λ _, [];
     parse_public_key := λ text, if String.eqb text "" then None else Some text;
     recover_public_key :=
       λ text _, if String.eqb text "" then None else Some text;
     get_public_key := λ key, key;
     get_shared_secret := λ mine theirs, Some (mine +:+ theirs);
     wallet_sign_hash := sign_hash;
     as_string := λ x, x |}.

Definition entry (major fork minor patch : Z) (sigs : gset string)
    (time : Z) : UpdateDetails :=
  {| majorVersion := major; forkVersion := fork; minorVersion := minor;
     patchVersion := patch; signatures := sigs;
     releaseNotes := "notes";
     updatePackageUrl := "http://dacplay.org/web.pak";
     timestamp := time |}.

Definition the_wallet : wallet :=
  {| is_open := true; is_unlocked := true; wallet_password := "secret";
     wallet_accounts := ["alice"] |}.

(** A window of version 0.4.16-a with an unlocked wallet, no update on
    disk and none in memory. *)
Definition window (ud : UpdateDetails) : MainWindow :=
  {| _majorVersion := 0; _forkVersion := 4; _minorVersion := 16;
     _patchVersion := 97;
     _webUpdateDescription := ud;
     web_json := None; web_dat := None;
     web_package := ∅;
     client_wallet := Some the_wallet;
     httpd_endpoint := "127.0.0.1:9989";
     pending_loadWebUpdates := false;
     effects := [] |}.

(** The window before any update was looked at. *)
Definition window0 : MainWindow := window UpdateDetails_default.

(** Entries signed by two signing keys, at a time after the build's. *)
Definition entry_16a : UpdateDetails := entry 0 4 16 97 {[ "1a"; "2a" ]} 2000.
Definition entry_16b : UpdateDetails := entry 0 4 16 98 {[ "1a"; "2a" ]} 2000.
Definition entry_17a : UpdateDetails := entry 0 4 17 97 {[ "1a"; "2a" ]} 2000.
Definition entry_17b : UpdateDetails := entry 0 4 17 98 {[ "1a"; "2a" ]} 2000.
Definition entry_050a : UpdateDetails := entry 0 5 0 97 {[ "1a"; "2a" ]} 2000.

(** The same entry as [entry_16b], from before the build. *)
Definition entry_16b_old : UpdateDetails := entry 0 4 16 98 {[ "1a"; "2a" ]} 999.

(** Only the descriptor of an update is on disk. *)
Definition window_descriptor_only : MainWindow :=
  set_web_json (Some (Descriptor entry_16b)) window0.

(** A signed and well-formed package is on disk, not yet loaded. *)
Definition window_on_disk : MainWindow :=
  set_web_dat (Some "LZMA:site")
    (set_web_json (Some (Descriptor entry_16b)) window0).

(** The manifest reply chose [entry_16b]; its package is awaited. *)
Definition window_awaiting_package : MainWindow :=
  set_webUpdateDescription entry_16b window0.

Definition manifestUrl : string := WEB_UPDATES_MANIFEST_URL +:+ "?uuid=0".

(** A package reply whose body is signed and not an LZMA stream. *)
Definition corrupt_reply : QNetworkReply :=
  {| reply_url := "http://dacplay.org/web.pak"; readAll := "site" |}.

(** A package reply whose body is signed and an LZMA stream that does
    not unpack. *)
Definition malformed_reply : QNetworkReply :=
  {| reply_url := "http://dacplay.org/web.pak"; readAll := "LZMA:" |}.

(** A package reply for an entry that is older than the build. *)
Definition window_awaiting_old_package : MainWindow :=
  set_webUpdateDescription entry_16b_old window0.

Definition the_login : login_inputs :=
  {| generated_key := "K1";
     account_record := λ key, Some "server";
     head_block_age := Some 0;
     login_confirmed := true;
     account_chosen := None;
     unlock_answers := [] |}.

(** The same collaborators with a parser that knows one manifest text. *)
Definition collaborators_with_manifest : Collaborators :=
  {| BTS_ADDRESS_PREFIX := "XTS";
     CUSTOM_URL_SCHEME := "xts";
     git_revision_unix_timestamp := 1000;
     promptToUnlock_default := true;
     sha256_hash := λ data, data;
     recover_address := signer;
     json_to_string := to_string;
     json_manifest_entries :=
       λ data, if String.eqb data "manifest"
               then Some [entry_17a; entry_16b; entry_16a] else None;
     lzma_decompress := decompress;
     raw_unpack := unpack;
     QString_toInt := λ _, None;
     QString_number := λ _, "0";
     QString_toLower := toLower;
     QString_toLower_idemp := toLower_idemp;
     QString_toLower_empty := eq_refl;
     QUrl_query := λ _, [];
     parse_public_key := λ text, if String.eqb text "" then None else Some text;
     recover_public_key :=
       λ text _, if String.eqb text "" then None else Some text;
     get_public_key := λ key, key;
     get_shared_secret := λ mine theirs, Some (mine +:+ theirs);
     wallet_sign_hash := sign_hash;
     as_string := λ x, x |}.

(** A package reply whose body is signed and a well-formed stream. *)
Definition good_reply : QNetworkReply :=
  {| reply_url := "http://dacplay.org/web.pak"; readAll := "LZMA:site" |}.

(** The manifest set with the entries 0.4.16-a, 0.4.16-b and 0.4.17-a. *)
Definition the_manifest : WebUpdateManifest.t :=
  {| updates := set_of_entries [entry_17a; entry_16b; entry_16a] |}.

(** An executable of version 0.4.255-a. *)
Definition window_255 : MainWindow :=
  {| _majorVersion := 0; _forkVersion := 4; _minorVersion := 255;
     _patchVersion := 97;
     _webUpdateDescription := UpdateDetails_default;
     web_json := None; web_dat := None;
     web_package := ∅;
     client_wallet := Some the_wallet;
     httpd_endpoint := "127.0.0.1:9989";
     pending_loadWebUpdates := false;
     effects := [] |}.

(** The wallet of the examples, locked. *)
Definition locked_window : MainWindow :=
  set_client_wallet (Some (wallet_lock the_wallet)) window0.

(** The wallet of the examples, not open. *)
Definition closed_window : MainWindow :=
  set_client_wallet
    (Some {| is_open := false; is_unlocked := false;
             wallet_password := "secret"; wallet_accounts := ["alice"] |})
    window0.

(** A hidden window that has not been given a URL. *)
Definition hidden_shell : shell :=
  {| mainWindow := window0; isVisible := false; _deferredUrl := "" |}.

(** The collaborators of the examples with another scheme macro. *)
Definition with_scheme (scheme : string) : Collaborators :=
  {| BTS_ADDRESS_PREFIX := "XTS";
     CUSTOM_URL_SCHEME := scheme;
     git_revision_unix_timestamp := 1000;
     promptToUnlock_default := true;
     sha256_hash := λ data, data;
     recover_address := signer;
     json_to_string := to_string;
     json_manifest_entries := λ _, None;
     lzma_decompress := decompress;
     raw_unpack := unpack;
     QString_toInt := λ _, None;
     QString_number := λ _, "0";
     QString_toLower := toLower;
     QString_toLower_idemp := toLower_idemp;
     QString_toLower_empty := eq_refl;
     QUrl_query := λ _, [];
     parse_public_key := λ text, if String.eqb text "" then None else Some text;
     recover_public_key :=
       λ text _, if String.eqb text "" then None else Some text;
     get_public_key := λ key, key;
     get_shared_secret := λ mine theirs, Some (mine +:+ theirs);
     wallet_sign_hash := sign_hash;
     as_string := λ x, x |}.

End Demo.

(** * Properties *)

(** ** Signature verification *)

Section VerificationFacts.
Context {env : Collaborators}.

Lemma size_list_to_set_le (l : list string) :
  (size (list_to_set l : gset string) ≤ length l)%nat.
Proof.
  induction l as [|x l IH].
  - rewrite list_to_set_nil, size_empty. done.
  - rewrite list_to_set_cons, size_union_alt, size_singleton. simpl.
    assert (size (list_to_set l ∖ {[x]} : gset string)
            ≤ size (list_to_set l : gset string))%nat
      by (apply subseteq_size; set_solver).
    lia.
Qed.

Lemma length_omap_le {A B} (f : A → option B) (l : list A) :
  (length (omap f l) ≤ length l)%nat.
Proof.
  induction l as [|x l IH]; [done|].
  cbn. destruct (f x); cbn; lia.
Qed.

Lemma size_recovered_le ud hash :
  (size (recovered_addresses ud hash) ≤ size (signatures ud))%nat.
Proof.
  unfold recovered_addresses, set_omap.
  etrans; [apply size_list_to_set_le|].
  etrans; [apply length_omap_le|]. done.
Qed.

Lemma size_trusted_le ud hash :
  (size (trusted_signers ud hash) ≤ size (signatures ud))%nat.
Proof.
  etrans; [|apply (size_recovered_le ud hash)].
  apply subseteq_size. unfold trusted_signers. set_solver.
Qed.

Lemma erase_signers_Some hash sigs A :
  Forall (λ s, is_Some (recover_address s hash)) sigs →
  erase_signers hash sigs A =
    Some (A ∖ list_to_set (omap (λ s, recover_address s hash) sigs)).
Proof.
  intros Hall. revert A.
  induction Hall as [|s sigs [a Ha] _ IH]; intros A; simpl.
  - f_equal. set_solver.
  - rewrite Ha. rewrite IH. f_equal. set_solver.
Qed.

Lemma erase_signers_None hash sigs A :
  ¬ Forall (λ s, is_Some (recover_address s hash)) sigs →
  erase_signers hash sigs A = None.
Proof.
  revert A. induction sigs as [|s sigs IH]; intros A Hn; simpl.
  - destruct Hn. constructor.
  - destruct (recover_address s hash) as [a|] eqn:Ha; [|done].
    apply IH. intros Hall. apply Hn. constructor; [by rewrite Ha|done].
Qed.

Lemma all_recoverable_elements ud hash :
  all_recoverable ud hash ↔
  Forall (λ s, is_Some (recover_address s hash)) (elements (signatures ud)).
Proof.
  unfold all_recoverable. rewrite Forall_forall.
  split; intros Hall s Hs; apply Hall; by apply elem_of_elements.
Qed.

Lemma append_inj_r (p a b : string) : p +:+ a = p +:+ b → a = b.
Proof. induction p; simpl; intros Heq; [done|]. injection Heq. auto. Qed.

Lemma size_WEB_UPDATES_SIGNING_KEYS : size WEB_UPDATES_SIGNING_KEYS = 4%nat.
Proof.
  unfold WEB_UPDATES_SIGNING_KEYS.
  rewrite !size_union, !size_singleton; [done|..].
  all: rewrite ?disjoint_union_l, ?disjoint_singleton_l, ?elem_of_singleton.
  all: repeat split; intros Heq%append_inj_r; discriminate.
Qed.

Lemma size_erased (R : gset string) :
  (size WEB_UPDATES_SIGNING_KEYS - size (WEB_UPDATES_SIGNING_KEYS ∖ R)
   = size (R ∩ WEB_UPDATES_SIGNING_KEYS))%nat.
Proof.
  rewrite size_difference_alt.
  assert (WEB_UPDATES_SIGNING_KEYS ∩ R = R ∩ WEB_UPDATES_SIGNING_KEYS) as -> by set_solver.
  assert (size (R ∩ WEB_UPDATES_SIGNING_KEYS) ≤ size WEB_UPDATES_SIGNING_KEYS)%nat
    by (apply subseteq_size; set_solver).
  lia.
Qed.

(** The result of [verifyUpdateSignature], gate by gate. *)
Lemma verifyUpdateSignature_cases this updatePackage :
  let ud := _webUpdateDescription this in
  let hash := signable_hash ud updatePackage in
  verifyUpdateSignature this updatePackage =
    if (size (signatures ud) <? WEB_UPDATES_SIGNATURE_REQUIREMENT)%nat
    then Returned false
    else if timestamp ud <? git_revision_unix_timestamp then Returned false
    else if decide (Forall (λ s, is_Some (recover_address s hash))
                      (elements (signatures ud)))
    then Returned (WEB_UPDATES_SIGNATURE_REQUIREMENT <=?
                     size (trusted_signers ud hash))%nat
    else Threw.
Proof.
  intros ud hash. unfold verifyUpdateSignature. fold ud. fold hash.
  rewrite size_WEB_UPDATES_SIGNING_KEYS.
  replace (4 <? WEB_UPDATES_SIGNATURE_REQUIREMENT)%nat with false by done.
  rewrite orb_false_r.
  destruct (size (signatures ud) <? _)%nat; [done|].
  destruct (timestamp ud <? _); [done|].
  destruct (decide _) as [Hall|Hn].
  - rewrite (erase_signers_Some _ _ _ Hall).
    rewrite <- size_WEB_UPDATES_SIGNING_KEYS, size_erased.
    unfold trusted_signers, recovered_addresses, set_omap.
    by destruct (_ <=? _)%nat.
  - by rewrite (erase_signers_None _ _ _ Hn).
Qed.

Lemma verifyUpdateSignature_true_iff this updatePackage :
  let ud := _webUpdateDescription this in
  let hash := signable_hash ud updatePackage in
  verifyUpdateSignature this updatePackage = Returned true ↔
    git_revision_unix_timestamp ≤ timestamp ud ∧
    all_recoverable ud hash ∧
    (WEB_UPDATES_SIGNATURE_REQUIREMENT ≤ size (trusted_signers ud hash))%nat.
Proof.
  intros ud hash. rewrite verifyUpdateSignature_cases. fold ud; fold hash.
  rewrite all_recoverable_elements.
  pose proof (size_trusted_le ud hash).
  destruct (Nat.ltb_spec (size (signatures ud)) WEB_UPDATES_SIGNATURE_REQUIREMENT).
  { split; [done|]. intros (_ & _ & ?). lia. }
  destruct (Z.ltb_spec (timestamp ud) git_revision_unix_timestamp).
  { split; [done|]. intros (? & _). lia. }
  destruct (decide _) as [Hall|Hn].
  - destruct (Nat.leb_spec WEB_UPDATES_SIGNATURE_REQUIREMENT (size (trusted_signers ud hash))).
    + split; [|done]. intros _. repeat split; [lia|done..].
    + split; [done|]. intros (_ & _ & ?). lia.
  - split; [done|]. intros (_ & ? & _). done.
Qed.

(** C1 (as amended). For every update entry whose signatures all recover
    to a key, and every downloaded package: there are four signing keys
    and the requirement is two; verification authorizes the entry if and
    only if its timestamp is not earlier than the build's and at least
    two distinct signing keys are among the addresses recovered from its
    signatures over the signable hash; and two signatures that recover
    to the same key do not authorize it. *)
Theorem verifyUpdateSignature_threshold this updatePackage :
  let ud := _webUpdateDescription this in
  let hash := signable_hash ud updatePackage in
  all_recoverable ud hash →
  (size WEB_UPDATES_SIGNING_KEYS = 4 ∧ WEB_UPDATES_SIGNATURE_REQUIREMENT = 2)%nat ∧
  (verifyUpdateSignature this updatePackage = Returned true ↔
     git_revision_unix_timestamp ≤ timestamp ud ∧
     (WEB_UPDATES_SIGNATURE_REQUIREMENT ≤ size (trusted_signers ud hash))%nat) ∧
  (∀ signature1 signature2 key,
     signatures ud = {[ signature1; signature2 ]} →
     recover_address signature1 hash = Some key →
     recover_address signature2 hash = Some key →
     verifyUpdateSignature this updatePackage = Returned false).
Proof.
  intros ud hash Hall. split; [|split].
  - split; [apply size_WEB_UPDATES_SIGNING_KEYS|done].
  - rewrite verifyUpdateSignature_true_iff. fold ud; fold hash. tauto.
  - intros s1 s2 key Hsigs H1 H2.
    assert (trusted_signers ud hash ⊆ {[ key ]}) as Hsub.
    { unfold trusted_signers, recovered_addresses. rewrite Hsigs.
      intros a [Ha _]%elem_of_intersection.
      apply elem_of_set_omap in Ha as (s & Hs & Hrec).
      apply elem_of_union in Hs as [Hs|Hs]; apply elem_of_singleton in Hs;
        subst s; apply elem_of_singleton; congruence. }
    apply subseteq_size in Hsub. rewrite size_singleton in Hsub.
    rewrite verifyUpdateSignature_cases. fold ud; fold hash.
    destruct (_ <? _)%nat; [done|]. destruct (_ <? _); [done|].
    destruct (decide _) as [_|Hn].
    + destruct (Nat.leb_spec WEB_UPDATES_SIGNATURE_REQUIREMENT
                  (size (trusted_signers ud hash))) as [Hle|]; [|done].
      unfold WEB_UPDATES_SIGNATURE_REQUIREMENT in Hle. lia.
    + destruct Hn. by apply all_recoverable_elements.
Qed.

(** C2. The signable string of an entry is the serialization of the
    entry with an empty signature set and every other field as it is.
    Package verification checks the signatures against the hash of the
    downloaded package followed by the signable string, and an entry that
    differs from it only in the signature set has the same signable
    string and the same signed bytes. *)
Theorem signable_string_excludes_signatures this ud2 updatePackage :
  let ud := _webUpdateDescription this in
  let cleared :=
    {| majorVersion := majorVersion ud; forkVersion := forkVersion ud;
       minorVersion := minorVersion ud; patchVersion := patchVersion ud;
       signatures := ∅;
       releaseNotes := releaseNotes ud;
       updatePackageUrl := updatePackageUrl ud;
       timestamp := timestamp ud |} in
  let signed_bytes := updatePackage +:+ json_to_string cleared in
  differ_only_in_signatures ud ud2 →
  signable_string ud = json_to_string cleared ∧
  signable_hash ud updatePackage = sha256_hash signed_bytes ∧
  (verifyUpdateSignature this updatePackage = Returned true ↔
     git_revision_unix_timestamp ≤ timestamp ud ∧
     all_recoverable ud (sha256_hash signed_bytes) ∧
     (WEB_UPDATES_SIGNATURE_REQUIREMENT
      ≤ size (trusted_signers ud (sha256_hash signed_bytes)))%nat) ∧
  signable_string ud = signable_string ud2 ∧
  updatePackage +:+ signable_string ud = updatePackage +:+ signable_string ud2 ∧
  signable_hash ud updatePackage = signable_hash ud2 updatePackage.
Proof.
  intros ud cleared signed_bytes (Hv & Hn & Hu & Ht).
  assert (clear_signatures ud = clear_signatures ud2) as Hclear.
  { unfold version in Hv. unfold clear_signatures. congruence. }
  assert (signable_string ud = signable_string ud2) as Hstr
    by (unfold signable_string; congruence).
  split; [reflexivity|].
  split; [reflexivity|]. split; [apply verifyUpdateSignature_true_iff|].
  split; [exact Hstr|]. split.
  - by rewrite Hstr.
  - unfold signable_hash. by rewrite Hstr.
Qed.

(** C3. An entry whose timestamp is earlier than the build's is rejected,
    whatever its signatures are. *)
Theorem verifyUpdateSignature_rejects_older_than_build this updatePackage :
  timestamp (_webUpdateDescription this) < git_revision_unix_timestamp →
  verifyUpdateSignature this updatePackage = Returned false.
Proof.
  intros Hold. rewrite verifyUpdateSignature_cases.
  destruct (_ <? _)%nat; [done|].
  destruct (Z.ltb_spec (timestamp (_webUpdateDescription this))
              git_revision_unix_timestamp); [done|lia].
Qed.

End VerificationFacts.

(** *** Examples with the concrete instance *)

(** Two signatures of two signing keys on an entry newer than the build
    authorize it; two signatures of one signing key do not. *)
Lemma verifyUpdateSignature_threshold_witness :
  verifyUpdateSignature (env := Demo.collaborators)
    (Demo.window (Demo.entry 0 4 16 98 {[ "1a"; "2a" ]} 2000)) "LZMA:site"
    = Returned true ∧
  verifyUpdateSignature (env := Demo.collaborators)
    (Demo.window (Demo.entry 0 4 16 98 {[ "1a"; "1b" ]} 2000)) "LZMA:site"
    = Returned false.
Proof.
  split.
  - apply (verifyUpdateSignature_threshold (env := Demo.collaborators)
             (Demo.window (Demo.entry 0 4 16 98 {[ "1a"; "2a" ]} 2000))
             "LZMA:site").
    + intros signature [->%elem_of_singleton| ->%elem_of_singleton]%elem_of_union;
        eexists; reflexivity.
    + split; [vm_compute; discriminate|vm_compute; lia].
  - apply (verifyUpdateSignature_threshold (env := Demo.collaborators)
             (Demo.window (Demo.entry 0 4 16 98 {[ "1a"; "1b" ]} 2000))
             "LZMA:site") with "1a" "1b" Demo.key1.
    + intros signature [->%elem_of_singleton| ->%elem_of_singleton]%elem_of_union;
        eexists; reflexivity.
    + reflexivity.
    + reflexivity.
    + reflexivity.
Defined.

(** C1, as stated, fails: an entry signed by two distinct signing keys whose
    timestamp (999) is earlier than the build's (1000) reaches the
    threshold and is not authorized. *)
Lemma old_entry_signed_by_two_keys_rejected :
  ¬ (verifyUpdateSignature (env := Demo.collaborators)
       (Demo.window Demo.entry_16b_old) "LZMA:site" = Returned true ↔
     (WEB_UPDATES_SIGNATURE_REQUIREMENT
      ≤ size (trusted_signers (env := Demo.collaborators) Demo.entry_16b_old
                (signable_hash (env := Demo.collaborators) Demo.entry_16b_old
                   "LZMA:site")))%nat).
Proof.
  intros [_ Hback].
  assert (verifyUpdateSignature (env := Demo.collaborators)
            (Demo.window Demo.entry_16b_old) "LZMA:site" = Returned true)
    as Hverify by (apply Hback; vm_compute; lia).
  vm_compute in Hverify. discriminate.
Qed.

(** Two entries of version 0.4.16-b with different signature sets: their
    serializations differ, their signable strings do not, and the
    signable string is the serialization without a signature. *)
Lemma signable_string_excludes_signatures_witness :
  json_to_string (Collaborators := Demo.collaborators) Demo.entry_16b
  ≠ json_to_string (Collaborators := Demo.collaborators)
      (Demo.entry 0 4 16 98 {[ "3a" ]} 2000) ∧
  signable_string (env := Demo.collaborators) Demo.entry_16b
  = "0.4.16-98[]notes@http://dacplay.org/web.pak@2000" ∧
  signable_string (env := Demo.collaborators) Demo.entry_16b
  = signable_string (env := Demo.collaborators)
      (Demo.entry 0 4 16 98 {[ "3a" ]} 2000).
Proof.
  destruct (signable_string_excludes_signatures (env := Demo.collaborators)
              Demo.window_awaiting_package
              (Demo.entry 0 4 16 98 {[ "3a" ]} 2000) "LZMA:site")
    as (Hcleared & _ & _ & Hsame & _).
  - repeat split; reflexivity.
  - split; [vm_compute; discriminate|]. split; [|exact Hsame].
    refine (eq_trans Hcleared _). vm_compute. reflexivity.
Defined.

(** An entry from before the build, signed by all four signing keys. *)
Lemma verifyUpdateSignature_rejects_older_than_build_witness :
  verifyUpdateSignature (env := Demo.collaborators)
    (Demo.window (Demo.entry 0 4 16 98 {[ "1a"; "2a"; "3a"; "4a" ]} 999))
    "LZMA:site"
  = Returned false.
Proof.
  apply (verifyUpdateSignature_rejects_older_than_build
           (env := Demo.collaborators)).
  vm_compute. reflexivity.
Defined.

(** ** The order of the versions and the choice of the update *)

Section OrderFacts.

Ltac lt_cases :=
  unfold lt; simpl in *;
  repeat match goal with
         | |- context [negb (?a =? ?b)] => destruct (Z.eqb_spec a b); simpl
         end;
  rewrite ?Z.ltb_lt, ?Z.ltb_ge in *; try lia.

Lemma lt_irrefl a : lt a a = false.
Proof. lt_cases. Qed.

Lemma lt_trans a b c : lt a b = true → lt b c = true → lt a c = true.
Proof. intros Hab Hbc. revert Hab Hbc. lt_cases. Qed.

Lemma lt_asym a b : lt a b = true → lt b a = false.
Proof. intros Hab. revert Hab. lt_cases. Qed.

(** Entries neither of which is below the other have the same version. *)
Lemma lt_total a b : lt a b = false → lt b a = false → version a = version b.
Proof.
  intros Hab Hba. unfold version. revert Hab Hba. lt_cases.
  intros. repeat match goal with |- (_, _) = (_, _) => f_equal end; lia.
Qed.

Lemma not_lt_trans a b c : lt a c = false → lt a b = true → lt b c = false.
Proof.
  intros Hac Hab. destruct (lt b c) eqn:Hbc; [|done].
  by rewrite (lt_trans a b c) in Hac.
Qed.

Lemma Forall_set_insert (P : UpdateDetails → Prop) x s :
  P x → Forall P s → Forall P (set_insert x s).
Proof.
  intros Hx Hs. induction Hs as [|y s Hy Hs IH]; simpl.
  - by constructor.
  - destruct (lt x y); [by repeat constructor|].
    destruct (lt y x); by constructor.
Qed.

Lemma set_insert_sorted x s : sorted s → sorted (set_insert x s).
Proof.
  induction 1 as [|y s Hs IH Hy]; simpl.
  - repeat constructor.
  - destruct (lt x y) eqn:Hxy.
    + constructor; [by constructor|]. constructor; [done|].
      eapply Forall_impl; [exact Hy|]. intros z Hz. by eapply lt_trans.
    + destruct (lt y x) eqn:Hyx; [|by constructor].
      constructor; [done|]. by apply Forall_set_insert.
Qed.

(** The manifest the reply is parsed into is sorted, without two entries
    of one version. *)
Lemma set_of_entries_sorted entries : sorted (set_of_entries entries).
Proof.
  unfold set_of_entries.
  assert (sorted []) as Hnil by constructor.
  revert Hnil. generalize (@nil UpdateDetails).
  induction entries as [|x entries IH]; intros s Hs; simpl; [done|].
  apply IH. by apply set_insert_sorted.
Qed.

Lemma lower_bound_le s key : (lower_bound s key ≤ length s)%nat.
Proof.
  induction s as [|y s IH]; simpl; [done|]. destruct (lt y key); simpl; lia.
Qed.

Lemma lower_bound_below s key :
  Forall (λ e, lt e key = true) (take (lower_bound s key) s).
Proof.
  induction s as [|y s IH]; simpl; [constructor|].
  destruct (lt y key) eqn:Hy; simpl; by constructor.
Qed.

Lemma lower_bound_rest s key :
  sorted s → Forall (λ e, lt e key = false) (drop (lower_bound s key) s).
Proof.
  induction 1 as [|y s Hs IH Hy]; simpl; [constructor|].
  destruct (lt y key) eqn:Hlt; simpl; [done|].
  constructor; [done|].
  eapply Forall_impl; [exact Hy|]. intros z Hz. by eapply not_lt_trans.
Qed.

Lemma last_take_S {A} (l : list A) i :
  (i < length l)%nat → last (take (S i) l) = l !! i.
Proof.
  intros Hi. destruct (lookup_lt_is_Some_2 l i Hi) as [x Hx].
  rewrite (take_S_r l i x Hx), last_snoc. done.
Qed.

Lemma rejected_false_iff this update :
  rejected this update = false ↔ acceptable this update.
Proof.
  unfold rejected, acceptable.
  rewrite !orb_false_iff, !negb_false_iff, !Z.eqb_eq, Z.leb_gt, Nat.ltb_ge.
  tauto.
Qed.

Lemma select_update_Some this manifest update :
  select_update this manifest = Some update →
  update ∈ updates manifest ∧ acceptable this update.
Proof.
  unfold select_update. destruct (lower_bound _ _) as [|itr]; [done|].
  destruct (updates manifest !! itr) as [u|] eqn:Hu; [|done].
  destruct (rejected this u) eqn:Hr; [done|]. intros [= <-].
  split; [by eapply list_elem_of_lookup_2|by apply rejected_false_iff].
Qed.

(** C4 (as amended). The key is (major, fork, minor + 1 as a byte, 'a')
    with the version of the executable. The manifest splits into the
    entries below the key and, from the first entry that is not below it,
    the rest. With no entry below the key (the manifest is empty, or its
    first element is the first entry not below the key) there is no
    update. Otherwise the candidate is the last entry below the key: the
    entry one position before the first entry not below the key, and the
    last entry of the manifest when no entry is not below the key. The
    candidate is returned if and only if its major, fork and minor
    versions are those of the executable, its patch version is greater
    and it has at least two signatures. *)
Theorem select_update_steps_back_from_lower_bound this manifest :
  sorted (updates manifest) →
  version (probe this)
    = (_majorVersion this, _forkVersion this,
       (_minorVersion this + 1) mod 256, 97) ∧
  ∃ below rest : list UpdateDetails,
    updates manifest = (below ++ rest)%list ∧
    Forall (λ e, lt e (probe this) = true) below ∧
    Forall (λ e, lt e (probe this) = false) rest ∧
    match last below with
    | None => select_update this manifest = None
    | Some candidate =>
        (select_update this manifest = Some candidate ↔
           acceptable this candidate) ∧
        (select_update this manifest = None ↔ ¬ acceptable this candidate)
    end.
Proof.
  intros Hsorted. split; [done|].
  exists (take (lower_bound (updates manifest) (probe this)) (updates manifest)),
         (drop (lower_bound (updates manifest) (probe this)) (updates manifest)).
  split; [by rewrite take_drop|].
  split; [apply lower_bound_below|].
  split; [by apply lower_bound_rest|].
  unfold select_update.
  pose proof (lower_bound_le (updates manifest) (probe this)) as Hle.
  destruct (lower_bound _ _) as [|itr]; [done|].
  rewrite last_take_S by lia.
  destruct (lookup_lt_is_Some_2 (updates manifest) itr ltac:(lia)) as [u ->].
  pose proof (rejected_false_iff this u) as Hacc.
  destruct (rejected this u).
  - split; split; try done.
    + intros Ha. apply Hacc in Ha. done.
    + intros _ Ha. apply Hacc in Ha. done.
  - split; split; try done.
    + intros _. by apply Hacc.
    + intros Hn. destruct Hn. by apply Hacc.
Qed.

(** C5 (as amended). For the executable 0.4.16-a: from a manifest that
    holds exactly an entry 0.4.16-a and an entry 0.4.17-b no update is
    chosen, the second entry being of another minor version; and from a
    manifest whose only entry newer than the executable is 0.5.0-a no
    update is chosen either. *)
Theorem select_update_examples this :
  version (installed this) = (0, 4, 16, 97) →
  (∀ e1 e2 entries,
     version e1 = (0, 4, 16, 97) → version e2 = (0, 4, 17, 98) →
     entries = [e1; e2] ∨ entries = [e2; e1] →
     updates {| updates := set_of_entries entries |} = [e1; e2] ∧
     select_update this {| updates := set_of_entries entries |} = None) ∧
  (∀ manifest,
     (∀ e, e ∈ updates manifest → lt (installed this) e = true →
           version e = (0, 5, 0, 97)) →
     select_update this manifest = None).
Proof.
  intros Hthis. injection Hthis as Hmaj Hfork Hmin Hpatch. simpl in *.
  split.
  - intros e1 e2 entries H1 H2 Hentries.
    injection H1 as H1a H1b H1c H1d. injection H2 as H2a H2b H2c H2d.
    assert (lt e1 e2 = true) as H12 by lt_cases.
    assert (lt e2 e1 = false) as H21 by by apply lt_asym.
    assert (set_of_entries entries = [e1; e2]) as ->.
    { destruct Hentries as [-> | ->]; unfold set_of_entries; simpl.
      - by rewrite H21, H12.
      - by rewrite H12. }
    split; [done|].
    assert (lt e1 (probe this) = true) as Hlow.
    { unfold probe. rewrite Hmin. change ((16 + 1) mod 256) with 17. lt_cases. }
    assert (lt e2 (probe this) = false) as Hhigh.
    { unfold probe. rewrite Hmin. change ((16 + 1) mod 256) with 17. lt_cases. }
    unfold select_update. simpl. rewrite Hlow, Hhigh. simpl. unfold rejected.
    assert ((patchVersion e1 <=? _patchVersion this) = true) as ->
      by (apply Z.leb_le; lia).
    by rewrite !orb_true_r.
  - intros manifest Honly.
    destruct (select_update this manifest) as [u|] eqn:Hsel; [|done].
    apply select_update_Some in Hsel as [Hin (Ha & Hb & Hc & Hd & _)].
    assert (lt (installed this) u = true) as Hnewer by lt_cases.
    specialize (Honly u Hin Hnewer). injection Honly as ? ? ? ?. lia.
Qed.

End OrderFacts.

(** *** Examples with the concrete instance *)

Example set_of_entries_orders :
  set_of_entries [Demo.entry_17a; Demo.entry_16b; Demo.entry_16a; Demo.entry_16b]
  = [Demo.entry_16a; Demo.entry_16b; Demo.entry_17a].
Proof. reflexivity. Qed.

Example select_update_patch :
  select_update Demo.window0
    {| updates :=
         set_of_entries [Demo.entry_17a; Demo.entry_16b; Demo.entry_16a] |}
  = Some Demo.entry_16b.
Proof. vm_compute. reflexivity. Qed.

Example select_update_too_few_signatures :
  select_update Demo.window0
    {| updates := [Demo.entry_16a; Demo.entry 0 4 16 98 {[ "1a" ]} 2000] |}
  = None.
Proof. vm_compute. reflexivity. Qed.

(** The manifest parsed from the entries 0.4.17-a, 0.4.16-b, 0.4.16-a, in
    this order, for the executable 0.4.16-a. *)
Lemma select_update_steps_back_witness :
  sorted (set_of_entries [Demo.entry_17a; Demo.entry_16b; Demo.entry_16a]) ∧
  ∃ below rest : list UpdateDetails,
    set_of_entries [Demo.entry_17a; Demo.entry_16b; Demo.entry_16a]
      = (below ++ rest)%list ∧
    Forall (λ e, lt e (probe Demo.window0) = true) below ∧
    Forall (λ e, lt e (probe Demo.window0) = false) rest ∧
    match last below with
    | None =>
        select_update Demo.window0
          {| updates :=
               set_of_entries [Demo.entry_17a; Demo.entry_16b; Demo.entry_16a] |}
        = None
    | Some candidate =>
        (select_update Demo.window0
           {| updates :=
                set_of_entries [Demo.entry_17a; Demo.entry_16b; Demo.entry_16a] |}
         = Some candidate ↔ acceptable Demo.window0 candidate) ∧
        (select_update Demo.window0
           {| updates :=
                set_of_entries [Demo.entry_17a; Demo.entry_16b; Demo.entry_16a] |}
         = None ↔ ¬ acceptable Demo.window0 candidate)
    end.
Proof.
  assert (sorted (set_of_entries
                    [Demo.entry_17a; Demo.entry_16b; Demo.entry_16a]))
    as Hsorted by (unfold sorted; vm_compute; repeat constructor).
  split; [exact Hsorted|].
  apply (select_update_steps_back_from_lower_bound Demo.window0
           {| updates :=
                set_of_entries [Demo.entry_17a; Demo.entry_16b; Demo.entry_16a] |}
           Hsorted).
Defined.

(** C4, as stated, fails: in the manifest that holds only 0.4.16-b no
    entry is greater than or equal to the key 0.4.17-a, and the entry is
    chosen for the executable 0.4.16-a. *)
Lemma select_update_without_entry_above_probe :
  ¬ ((∀ e, e ∈ [Demo.entry_16b] → lt e (probe Demo.window0) = true) →
     select_update Demo.window0 {| updates := [Demo.entry_16b] |} = None).
Proof.
  intros Hclaim.
  assert (select_update Demo.window0 {| updates := [Demo.entry_16b] |} = None)
    as Hnone.
  { apply Hclaim. intros e ->%list_elem_of_singleton. reflexivity. }
  vm_compute in Hnone. discriminate.
Qed.

(** Both manifests of C5, for the executable 0.4.16-a. *)
Lemma select_update_examples_witness :
  select_update Demo.window0
    {| updates := set_of_entries [Demo.entry_17b; Demo.entry_16a] |} = None ∧
  select_update Demo.window0
    {| updates := [Demo.entry_16a; Demo.entry_050a] |} = None.
Proof.
  destruct (select_update_examples Demo.window0 eq_refl) as [Hfirst Hsecond].
  split.
  - apply (Hfirst Demo.entry_16a Demo.entry_17b); [reflexivity|reflexivity|].
    right. reflexivity.
  - apply Hsecond. simpl.
    intros e [->|[->|[]%elem_of_nil]%elem_of_cons]%elem_of_cons Hnewer.
    + vm_compute in Hnewer. discriminate.
    + reflexivity.
Defined.

(** C5, as stated, fails: from the manifest that holds exactly 0.4.16-a and
    0.4.17-b, both signed by two signing keys, the executable 0.4.16-a
    gets no update. *)
Lemma select_update_skips_next_minor :
  select_update Demo.window0
    {| updates := set_of_entries [Demo.entry_16a; Demo.entry_17b] |}
  ≠ Some Demo.entry_17b.
Proof. vm_compute. discriminate. Qed.

(** ** The files of an update and the installed package *)

Section UpdateFacts.
Context {env : Collaborators}.

(** C6 (as amended). When exactly one of [web.json] and [web.dat] exists,
    the loader run at start-up returns at once and changes nothing: it
    deletes no file and installs no package. The file that is there is
    deleted by the update check, at its start, which leaves neither file
    and does not touch the installed package. *)
Theorem split_state_kept_by_loader_purged_by_check this queryString :
  (is_Some (web_json this) ∧ web_dat this = None) ∨
  (web_json this = None ∧ is_Some (web_dat this)) →
  loadWebUpdates this = (Normal, this) ∧
  web_package (loadWebUpdates this).2 = web_package this ∧
  web_json (checkWebUpdates queryString this) = None ∧
  web_dat (checkWebUpdates queryString this) = None ∧
  web_package (checkWebUpdates queryString this) = web_package this.
Proof.
  intros Hsplit.
  assert (loadWebUpdates this = (Normal, this)) as Hload.
  { unfold loadWebUpdates.
    destruct Hsplit as [[[descriptor Hjson] Hdat] | [Hjson _]].
    - by rewrite Hjson, Hdat.
    - by rewrite Hjson. }
  split; [exact Hload|]. split; [by rewrite Hload|].
  unfold checkWebUpdates.
  destruct Hsplit as [[[descriptor Hjson] Hdat] | [Hjson [package Hdat]]];
    rewrite Hjson, Hdat.
  - rewrite (bool_decide_eq_true_2 (is_Some (Some descriptor))) by eauto.
    rewrite (bool_decide_eq_false_2 (is_Some None)) by apply is_Some_None.
    simpl. by rewrite Hdat, (bool_decide_eq_false_2 (is_Some None))
      by apply is_Some_None.
  - rewrite (bool_decide_eq_true_2 (is_Some (Some package))) by eauto.
    rewrite (bool_decide_eq_false_2 (is_Some None)) by apply is_Some_None.
    simpl. by rewrite Hdat, (bool_decide_eq_true_2 (is_Some (Some package)))
      by eauto.
Qed.

(** C7 (as amended). In an update attempt, a package that passes the
    signature check and that the user accepts is written to disk with its
    descriptor before it is decompressed; if its compressed stream is
    corrupt, or decompresses to a stream that does not unpack, the loader
    then returns without installing and without deleting: the installed
    package, the wallet and the patch version are as before and the files
    just written stay. A package that does not pass the signature check,
    and a reply to the manifest request whatever it holds, change neither
    the files nor the installed package nor the wallet. *)
Theorem package_reply_failures showNoUpdatesAlert finishedCheckCallback
    manifestUrl reply this :
  reply_url reply ≠ manifestUrl →
  pending_loadWebUpdates this = false →
  (verifyUpdateSignature this (readAll reply) = Returned true →
   lzma_decompress (readAll reply) = None
   ∨ (∃ decompressedStream,
        lzma_decompress (readAll reply) = Some decompressedStream ∧
        raw_unpack decompressedStream = None) →
   ∃ this',
     package_reply showNoUpdatesAlert finishedCheckCallback manifestUrl true
       reply this = (Normal, this') ∧
     web_dat this' = Some (readAll reply) ∧
     web_json this' = Some (Descriptor (_webUpdateDescription this)) ∧
     web_package this' = web_package this ∧
     client_wallet this' = client_wallet this ∧
     _patchVersion this' = _patchVersion this) ∧
  (verifyUpdateSignature this (readAll reply) ≠ Returned true →
   ∀ installNow, ∃ e this',
     package_reply showNoUpdatesAlert finishedCheckCallback manifestUrl
       installNow reply this = (e, this') ∧
     web_dat this' = web_dat this ∧
     web_json this' = web_json this ∧
     web_package this' = web_package this ∧
     client_wallet this' = client_wallet this ∧
     _patchVersion this' = _patchVersion this) ∧
  (∀ manifestReply installNow,
     reply_url manifestReply = manifestUrl →
     ∃ this',
       package_reply showNoUpdatesAlert finishedCheckCallback manifestUrl
         installNow manifestReply this = (Normal, this') ∧
       web_dat this' = web_dat this ∧
       web_json this' = web_json this ∧
       web_package this' = web_package this ∧
       client_wallet this' = client_wallet this ∧
       _patchVersion this' = _patchVersion this).
Proof.
  intros Hurl%String.eqb_neq Hpending. split; [|split].
  - intros Hverify Hcorrupt. unfold package_reply, checkWebUpdates_finished.
    rewrite Hurl, Hverify. simpl.
    unfold process_pending.
    assert (∀ this0, pending_loadWebUpdates
              (if finishedCheckCallback then emit FinishedCheckCallback this0
               else this0) = pending_loadWebUpdates this0) as Hfinish
      by (intros; by destruct finishedCheckCallback).
    rewrite Hfinish. simpl. unfold loadWebUpdates.
    destruct finishedCheckCallback; simpl.
    all: match goal with
         | |- context [verifyUpdateSignature ?w ?p] =>
             replace (verifyUpdateSignature w p) with (Returned true)
               by (rewrite <- Hverify; reflexivity)
         end.
    all: destruct Hcorrupt as [->|(decompressedStream & -> & ->)].
    all: eexists; split; [reflexivity|]; by simpl.
  - intros Hverify installNow. unfold package_reply, checkWebUpdates_finished.
    rewrite Hurl.
    destruct (verifyUpdateSignature this (readAll reply)) as [[|]|] eqn:Hv;
      [done| |].
    + unfold process_pending.
      destruct showNoUpdatesAlert; simpl; rewrite Hpending;
        eexists _, _; (split; [reflexivity|]); by simpl.
    + eexists _, _. split; [reflexivity|]. done.
  - intros manifestReply installNow Hmanifest%String.eqb_eq.
    unfold package_reply, checkWebUpdates_finished. rewrite Hmanifest.
    destruct (json_manifest_entries (readAll manifestReply)) as [entries|];
      [destruct (select_update this _) as [update|]|];
      destruct showNoUpdatesAlert, finishedCheckCallback; simpl;
      unfold process_pending; simpl; rewrite Hpending;
      eexists; (split; [reflexivity|]); by simpl.
Qed.

Lemma walletIsUnlocked_locked this w prompt :
  client_wallet this = Some w → is_unlocked w = false → prompt = false →
  walletIsUnlocked prompt [] this = Some (false, this).
Proof.
  intros Hw Hlocked ->. unfold walletIsUnlocked. rewrite Hw, Hlocked.
  by destruct (is_open w).
Qed.

(** C10. With a wallet in the client, a load that installs the package on
    disk locks the wallet, makes the unpacked files the installed package
    and reloads the view; a removal the user confirms deletes both files,
    locks the wallet, empties the installed package and reloads the view.
    After either, the wallet is locked. *)
Theorem install_and_removal_lock_the_wallet this w :
  client_wallet this = Some w →
  (∀ ud updatePackage decompressedStream deserializedPackage,
     web_json this = Some (Descriptor ud) →
     web_dat this = Some updatePackage →
     verifyUpdateSignature (set_webUpdateDescription ud this) updatePackage
       = Returned true →
     lzma_decompress updatePackage = Some decompressedStream →
     raw_unpack decompressedStream = Some deserializedPackage →
     ∃ this',
       loadWebUpdates this = (Normal, this') ∧
       client_wallet this' = Some (wallet_lock w) ∧
       is_unlocked (wallet_lock w) = false ∧
       walletIsUnlocked false [] this' = Some (false, this') ∧
       web_package this' = webInterfaceMap_of deserializedPackage ∧
       effects this' = (effects this ++ [WebViewReload])%list) ∧
  (∃ this',
     removeWebUpdates true this = Some this' ∧
     client_wallet this' = Some (wallet_lock w) ∧
     is_unlocked (wallet_lock w) = false ∧
     walletIsUnlocked false [] this' = Some (false, this') ∧
     web_package this' = ∅ ∧
     web_json this' = None ∧ web_dat this' = None ∧
     effects this'
       = (effects this ++ [MessageBox Question "Update"; WebViewReload])%list).
Proof.
  intros Hw. split.
  - intros ud updatePackage decompressedStream deserializedPackage
      Hjson Hdat Hverify Hstream Hunpack.
    unfold loadWebUpdates. rewrite Hjson, Hdat, Hverify, Hstream, Hunpack.
    simpl. rewrite Hw. eexists. split; [reflexivity|]. simpl.
    repeat split.
    by apply walletIsUnlocked_locked with (wallet_lock w).
  - unfold removeWebUpdates. simpl. rewrite Hw. eexists.
    split; [reflexivity|]. simpl. repeat split.
    + by apply walletIsUnlocked_locked with (wallet_lock w).
    + by rewrite <- app_assoc.
Qed.

End UpdateFacts.

(** *** Examples with the concrete instance *)

(** Only [web.json] is on disk. *)
Lemma split_state_kept_by_loader_purged_by_check_witness :
  loadWebUpdates (env := Demo.collaborators) Demo.window_descriptor_only
    = (Normal, Demo.window_descriptor_only) ∧
  web_package (loadWebUpdates (env := Demo.collaborators)
                 Demo.window_descriptor_only).2
    = web_package Demo.window_descriptor_only ∧
  web_json (checkWebUpdates "?uuid=0" Demo.window_descriptor_only) = None ∧
  web_dat (checkWebUpdates "?uuid=0" Demo.window_descriptor_only) = None ∧
  web_package (checkWebUpdates "?uuid=0" Demo.window_descriptor_only)
    = web_package Demo.window_descriptor_only.
Proof.
  apply (split_state_kept_by_loader_purged_by_check (env := Demo.collaborators)
           Demo.window_descriptor_only "?uuid=0").
  left. split; [eexists; reflexivity|reflexivity].
Defined.

(** C6, as stated, fails: with only the descriptor on disk, the loader
    leaves the descriptor where it is. *)
Lemma loadWebUpdates_keeps_lone_descriptor :
  web_dat Demo.window_descriptor_only = None ∧
  web_json (loadWebUpdates (env := Demo.collaborators)
              Demo.window_descriptor_only).2
    = Some (Descriptor Demo.entry_16b).
Proof. split; reflexivity. Qed.

(** Three replies for the entry 0.4.16-b: a package that is no stream, a
    stream that holds no package, and a package for an entry older than
    the build. *)
Lemma package_reply_failures_witness :
  (∃ this',
     package_reply (env := Demo.collaborators) true true Demo.manifestUrl true
       Demo.corrupt_reply Demo.window_awaiting_package = (Normal, this') ∧
     web_dat this' = Some "site" ∧
     web_json this' = Some (Descriptor Demo.entry_16b) ∧
     web_package this' = ∅ ∧
     client_wallet this' = Some Demo.the_wallet ∧
     _patchVersion this' = 97) ∧
  (∃ this',
     package_reply (env := Demo.collaborators) true true Demo.manifestUrl true
       Demo.malformed_reply Demo.window_awaiting_package = (Normal, this') ∧
     web_dat this' = Some "LZMA:" ∧
     web_json this' = Some (Descriptor Demo.entry_16b) ∧
     web_package this' = ∅ ∧
     client_wallet this' = Some Demo.the_wallet ∧
     _patchVersion this' = 97) ∧
  (∃ e this',
     package_reply (env := Demo.collaborators) true true Demo.manifestUrl true
       Demo.corrupt_reply Demo.window_awaiting_old_package = (e, this') ∧
     web_dat this' = None ∧
     web_json this' = None ∧
     web_package this' = ∅ ∧
     client_wallet this' = Some Demo.the_wallet ∧
     _patchVersion this' = 97).
Proof.
  split; [|split].
  - apply (package_reply_failures (env := Demo.collaborators) true true
             Demo.manifestUrl Demo.corrupt_reply Demo.window_awaiting_package).
    + vm_compute. discriminate.
    + reflexivity.
    + vm_compute. reflexivity.
    + left. reflexivity.
  - apply (package_reply_failures (env := Demo.collaborators) true true
             Demo.manifestUrl Demo.malformed_reply
             Demo.window_awaiting_package).
    + vm_compute. discriminate.
    + reflexivity.
    + vm_compute. reflexivity.
    + right. exists "". split; reflexivity.
  - destruct (package_reply_failures (env := Demo.collaborators) true true
                Demo.manifestUrl Demo.corrupt_reply
                Demo.window_awaiting_old_package)
      as (_ & Hunsigned & _).
    + vm_compute. discriminate.
    + reflexivity.
    + apply Hunsigned. vm_compute. discriminate.
Defined.

(** C7, as stated, fails: the package of the reply is signed and its
    stream is corrupt, and after the attempt both files are on disk where
    there were none. *)
Lemma package_written_before_decompression :
  verifyUpdateSignature (env := Demo.collaborators) Demo.window_awaiting_package
    (readAll Demo.corrupt_reply) = Returned true ∧
  lzma_decompress (Collaborators := Demo.collaborators)
    (readAll Demo.corrupt_reply) = None ∧
  web_dat Demo.window_awaiting_package = None ∧
  web_json Demo.window_awaiting_package = None ∧
  web_dat (package_reply (env := Demo.collaborators) true true Demo.manifestUrl
             true Demo.corrupt_reply Demo.window_awaiting_package).2
    = Some "site" ∧
  web_json (package_reply (env := Demo.collaborators) true true Demo.manifestUrl
              true Demo.corrupt_reply Demo.window_awaiting_package).2
    = Some (Descriptor Demo.entry_16b).
Proof. repeat split; vm_compute; reflexivity. Qed.

(** A signed package with one file is on disk and the wallet is unlocked. *)
Lemma install_and_removal_lock_the_wallet_witness :
  (∃ this',
     loadWebUpdates (env := Demo.collaborators) Demo.window_on_disk
       = (Normal, this') ∧
     client_wallet this' = Some (wallet_lock Demo.the_wallet) ∧
     is_unlocked (wallet_lock Demo.the_wallet) = false ∧
     walletIsUnlocked false [] this' = Some (false, this') ∧
     web_package this' = webInterfaceMap_of [("index.html", "site")] ∧
     effects this' = [WebViewReload]) ∧
  (∃ this',
     removeWebUpdates true Demo.window_on_disk = Some this' ∧
     client_wallet this' = Some (wallet_lock Demo.the_wallet) ∧
     is_unlocked (wallet_lock Demo.the_wallet) = false ∧
     walletIsUnlocked false [] this' = Some (false, this') ∧
     web_package this' = ∅ ∧
     web_json this' = None ∧ web_dat this' = None ∧
     effects this' = [MessageBox Question "Update"; WebViewReload]).
Proof.
  destruct (install_and_removal_lock_the_wallet (env := Demo.collaborators)
              Demo.window_on_disk Demo.the_wallet eq_refl)
    as [Hinstall Hremove].
  split; [|exact Hremove].
  apply (Hinstall Demo.entry_16b "LZMA:site" "site").
  - reflexivity.
  - reflexivity.
  - vm_compute. reflexivity.
  - reflexivity.
  - reflexivity.
Defined.

(** ** Deep links *)

Section DeepLinkFacts.
Context {env : Collaborators}.

(** A URL of the custom scheme whose first component, in lower case, is
    none of the names [processCustomUrl] compares it with, leaves the
    window as it is. *)
Lemma processCustomUrl_unrouted url this component0 rest :
  has_custom_scheme url →
  url_components url = component0 :: rest →
  QString_toLower component0
    ∉ ["home"; "delegates"; "notes"; "directory"; "newcontact";
       "preferences"; "console"; "help"; "accounts"; "blocks"] →
  processCustomUrl url this = this.
Proof.
  unfold has_custom_scheme, url_components, processCustomUrl.
  intros -> -> Hnot. rewrite String.eqb_refl. simpl.
  repeat (apply not_elem_of_cons in Hnot as [?%String.eqb_neq Hnot]).
  by repeat match goal with Hne : (_ =? _)%string = false |- _ =>
                      rewrite Hne; clear Hne
            end.
Qed.

Lemma unlock_loop_effects answers w this :
  ∃ l, effects (unlock_loop answers w this).2 = (effects this ++ l)%list.
Proof.
  revert this. induction answers as [|answer answers IH]; intros this; simpl.
  - exists []. by rewrite app_nil_r.
  - destruct answer as [password|]; simpl.
    + destruct (wallet_unlock password w); simpl.
      * by exists [UnlockPrompt].
      * destruct (IH (emit UnlockPrompt this)) as [l Hl].
        exists (UnlockPrompt :: l). rewrite Hl. simpl. by rewrite <- app_assoc.
    + by exists [UnlockPrompt].
Qed.

Lemma navigateTo_effects path answers this this' :
  navigateTo path answers this = Some this' →
  ∃ l, effects this' = (effects this ++ l)%list.
Proof.
  unfold navigateTo, walletIsUnlocked.
  destruct (client_wallet this) as [w|]; [|done].
  destruct (is_open w); simpl;
    [|intros [= <-]; exists []; by rewrite app_nil_r].
  destruct (is_unlocked w) eqn:Hu; simpl; [intros [= <-]; by eexists [_]|].
  destruct promptToUnlock_default.
  - destruct (unlock_loop_effects answers w this) as [l Hl].
    destruct (unlock_loop answers w this) as [w' this1] eqn:Hloop.
    simpl in *. destruct (is_unlocked w'); simpl; intros [= <-]; simpl.
    + exists (l ++ [EvaluateJavaScript ("navigate_to('" +:+ path +:+ "')")])%list.
      by rewrite Hl, app_assoc.
    + by exists l.
  - intros [= <-]. exists []. by rewrite app_nil_r.
Qed.

(** Whenever the login handshake runs to its end it has shown a dialog or
    opened the browser. *)
Lemma doLogin_not_silent inputs components this this' :
  doLogin inputs components this = Some this' →
  ∃ e l, effects this' = (effects this ++ e :: l)%list.
Proof.
  unfold doLogin.
  destruct components as [|component0 components]; [done|].
  destruct (parse_public_key component0) as [serverOneTimeKey|];
    [|intros [= <-]; by eexists _, []].
  destruct components as [|component1 returnUrl]; [done|].
  destruct (recover_public_key _ _) as [serverAccountKey|];
    [|intros [= <-]; by eexists _, []].
  destruct (get_shared_secret _ _) as [secret|];
    [|intros [= <-]; by eexists _, []].
  destruct (client_wallet this) as [w|]; [|done].
  unfold getLoginUser.
  destruct (account_record inputs serverAccountKey) as [serverName|].
  - destruct (wallet_accounts w) as [|account [|account' accounts]] eqn:Haccounts.
    + simpl. intros [l Hl]%navigateTo_effects. rewrite Hl. simpl.
      eexists _, l. by rewrite <- app_assoc.
    + destruct (login_confirmed inputs).
      * destruct (account =? "")%string; [intros [= <-]; by eexists _, []|].
        destruct (account =? "EMPTY")%string.
        -- intros [l Hl]%navigateTo_effects. rewrite Hl. simpl.
           eexists _, _. by rewrite <- !app_assoc.
        -- destruct (wallet_sign_hash _ _ _); intros [= <-]; simpl;
             eexists _, _; by rewrite <- app_assoc.
      * simpl. intros [= <-]. by eexists _, [].
    + destruct (account_chosen inputs) as [chosen|].
      * destruct (chosen =? "")%string; [intros [= <-]; by eexists _, []|].
        destruct (chosen =? "EMPTY")%string.
        -- intros [l Hl]%navigateTo_effects. rewrite Hl. simpl.
           eexists _, _. by rewrite <- !app_assoc.
        -- destruct (wallet_sign_hash _ _ _); intros [= <-]; simpl;
             eexists _, _; by rewrite <- app_assoc.
      * simpl. intros [= <-]. by eexists _, [].
  - destruct (_ <? 1); simpl; intros [= <-]; by eexists _, [].
Qed.

Lemma doLogin_changes_window inputs components this :
  doLogin inputs components this ≠ Some this.
Proof.
  intros (e & l & Heq)%doLogin_not_silent.
  apply (f_equal length) in Heq. rewrite length_app in Heq. simpl in Heq. lia.
Qed.

(** C8 (as amended). A URL of the custom scheme whose first path component
    is [login], in any case of its letters, is not recognized as a
    command: [processCustomUrl] returns with the window as it was, having
    shown, loaded and changed nothing, and it has not run the login
    handshake on the remaining components, which never leaves the window
    as it was. *)
Theorem processCustomUrl_ignores_login url this component0 rest :
  has_custom_scheme url →
  url_components url = component0 :: rest →
  QString_toLower component0 = "login" →
  processCustomUrl url this = this ∧
  ∀ inputs, doLogin inputs rest this ≠ Some (processCustomUrl url this).
Proof.
  intros Hscheme Hcomponents Hlogin.
  assert (processCustomUrl url this = this) as Hsame.
  { apply (processCustomUrl_unrouted url this component0 rest);
      [done..|].
    rewrite Hlogin. repeat (apply not_elem_of_cons; split; [done|]).
    apply not_elem_of_nil. }
  split; [done|]. intros inputs. rewrite Hsame. apply doLogin_changes_window.
Qed.

(** C9 (as amended). A URL of the custom scheme whose first path
    component, compared in lower case, is not in the allow-list, yields no
    command and has no effect: the window, and with it the view, the files
    and the wallet, is as it was. *)
Theorem processCustomUrl_ignores_unlisted url this component0 rest :
  has_custom_scheme url →
  url_components url = component0 :: rest →
  QString_toLower component0 ∉ allow_list →
  processCustomUrl url this = this.
Proof.
  intros Hscheme Hcomponents Hnot.
  apply (processCustomUrl_unrouted url this component0 rest); [done..|].
  intros Hin. apply Hnot. unfold allow_list.
  repeat (apply elem_of_cons in Hin as [->|Hin];
          [repeat (first [apply list_elem_of_here | apply list_elem_of_further])|]).
  by apply elem_of_nil in Hin.
Qed.

End DeepLinkFacts.

(** *** Examples with the concrete instance *)

Example url_components_account :
  url_components "XTS://accounts//alice" = ["accounts"; "alice"].
Proof. reflexivity. Qed.

Example processCustomUrl_account :
  effects (processCustomUrl (env := Demo.collaborators)
             "XTS://accounts//alice" Demo.window0)
  = [WebViewLoad "http://127.0.0.1:9989/#/accounts/alice"; WebViewSetFocus].
Proof. reflexivity. Qed.

Example processCustomUrl_other_scheme :
  processCustomUrl (env := Demo.collaborators) "http://home" Demo.window0
  = Demo.window0.
Proof. reflexivity. Qed.

Example processCustomUrl_no_component :
  effects (processCustomUrl (env := Demo.collaborators) "xts://" Demo.window0)
  = [MessageBox Warning "Invalid URL"].
Proof. reflexivity. Qed.

(** A login URL, with a capital letter. *)
Lemma processCustomUrl_ignores_login_witness :
  processCustomUrl (env := Demo.collaborators)
    "xts:Login/KEY/SIG/example.com/back" Demo.window0 = Demo.window0 ∧
  ∀ inputs,
    doLogin (env := Demo.collaborators) inputs
      ["KEY"; "SIG"; "example.com"; "back"] Demo.window0
    ≠ Some (processCustomUrl (env := Demo.collaborators)
              "xts:Login/KEY/SIG/example.com/back" Demo.window0).
Proof.
  apply (processCustomUrl_ignores_login (env := Demo.collaborators)
           "xts:Login/KEY/SIG/example.com/back" Demo.window0 "Login"
           ["KEY"; "SIG"; "example.com"; "back"]).
  - reflexivity.
  - reflexivity.
  - reflexivity.
Defined.

(** C8, as stated, fails: the URL has the custom scheme and the first
    component [login]; the handshake on the remaining components would ask
    for confirmation and open the browser, and [processCustomUrl] does
    nothing. *)
Lemma processCustomUrl_does_not_run_doLogin :
  has_custom_scheme (env := Demo.collaborators)
    "xts:login/KEY/SIG/example.com/back" ∧
  url_components "xts:login/KEY/SIG/example.com/back"
    = ["login"; "KEY"; "SIG"; "example.com"; "back"] ∧
  effects <$> doLogin (env := Demo.collaborators) Demo.the_login
                ["KEY"; "SIG"; "example.com"; "back"] Demo.window0
    = Some [MessageBox Question "Login";
            OpenInExternalBrowser "http://example.com/back"
              [("client_key", "K1"); ("client_name", "alice");
               ("server_key", "KEY"); ("signed_secret", "aliceK1KEY")]
              "K1KEY"] ∧
  processCustomUrl (env := Demo.collaborators)
    "xts:login/KEY/SIG/example.com/back" Demo.window0 = Demo.window0 ∧
  effects (processCustomUrl (env := Demo.collaborators)
             "xts:login/KEY/SIG/example.com/back" Demo.window0) = [].
Proof. repeat split; vm_compute; reflexivity. Qed.

(** The URL [xts://deleteallfunds]. *)
Lemma processCustomUrl_ignores_unlisted_witness :
  processCustomUrl (env := Demo.collaborators) "xts://deleteallfunds"
    Demo.window0 = Demo.window0.
Proof.
  apply (processCustomUrl_ignores_unlisted (env := Demo.collaborators)
           "xts://deleteallfunds" Demo.window0 "deleteallfunds" []).
  - reflexivity.
  - reflexivity.
  - unfold allow_list. simpl.
    repeat (apply not_elem_of_cons; split; [discriminate|]).
    apply not_elem_of_nil.
Defined.

(** C9, as stated, fails: [HOME] is not in the allow-list, and the URL
    loads the home page. *)
Lemma processCustomUrl_folds_case :
  has_custom_scheme (env := Demo.collaborators) "xts:HOME" ∧
  url_components "xts:HOME" = ["HOME"] ∧
  "HOME" ∉ allow_list ∧
  effects (processCustomUrl (env := Demo.collaborators) "xts:HOME" Demo.window0)
    = [WebViewLoad "http://127.0.0.1:9989/#/home"; WebViewSetFocus].
Proof.
  split; [reflexivity|]. split; [reflexivity|]. split; [|reflexivity].
  unfold allow_list.
  repeat (apply not_elem_of_cons; split; [discriminate|]).
  apply not_elem_of_nil.
Qed.

(** * Further properties of the code *)

(** ** The order of the versions and the set of the manifest *)

Section MoreOrderFacts.

Ltac order_cases :=
  unfold lt; simpl in *;
  repeat match goal with
         | |- context [negb (?a =? ?b)] => destruct (Z.eqb_spec a b); simpl
         end;
  rewrite ?Z.ltb_lt, ?Z.ltb_ge in *; try lia.

(** X1. [operator<] is a strict order on entries that is total on their
    versions: no entry is below itself, the order is transitive and
    asymmetric, two entries neither of which is below the other have the
    same version, and entries of one version are not below each other. *)
Theorem operator_lt_strict_total a b c :
  lt a a = false ∧
  (lt a b = true → lt b c = true → lt a c = true) ∧
  (lt a b = true → lt b a = false) ∧
  (lt a b = false → lt b a = false → version a = version b) ∧
  (version a = version b → lt a b = false).
Proof.
  split; [apply lt_irrefl|]. split; [apply lt_trans|].
  split; [apply lt_asym|]. split; [apply lt_total|].
  unfold version. intros [= Hmajor Hfork Hminor Hpatch]. order_cases.
Qed.

Lemma elem_of_set_insert_1 x s z : z ∈ set_insert x s → z = x ∨ z ∈ s.
Proof.
  induction s as [|y s IH]; simpl.
  - intros ->%list_elem_of_singleton. by left.
  - destruct (lt x y).
    + intros [->|Hz]%elem_of_cons; [by left|by right].
    + destruct (lt y x); [|by right].
      intros [->|Hz]%elem_of_cons; [right; by left|].
      destruct (IH Hz) as [->|Hin]; [by left|right; by right].
Qed.

Lemma elem_of_set_insert_2 x s z : z ∈ s → z ∈ set_insert x s.
Proof.
  induction s as [|y s IH]; simpl; [by intros ?%elem_of_nil|].
  intros Hz. destruct (lt x y); [by right|].
  destruct (lt y x); [|done].
  apply elem_of_cons in Hz as [->|Hz]; [by left|right; by apply IH].
Qed.

Lemma set_insert_represents x s :
  ∃ y, y ∈ set_insert x s ∧ version y = version x.
Proof.
  induction s as [|y s IH]; simpl.
  - exists x. split; [by left|done].
  - destruct (lt x y) eqn:Hxy; [exists x; split; [by left|done]|].
    destruct (lt y x) eqn:Hyx.
    + destruct IH as (z & Hz & Hv). exists z. split; [by right|done].
    + exists y. split; [by left|]. by apply lt_total.
Qed.

Lemma set_insert_new x s :
  (∀ y, y ∈ s → version y ≠ version x) → x ∈ set_insert x s.
Proof.
  induction s as [|y s IH]; simpl; intros Hnew; [by left|].
  destruct (lt x y) eqn:Hxy; [by left|].
  destruct (lt y x) eqn:Hyx.
  - right. apply IH. intros z Hz. apply Hnew. by right.
  - destruct (Hnew y); [by left|]. by apply lt_total.
Qed.

Lemma set_of_entries_snoc entries x :
  set_of_entries (entries ++ [x]) = set_insert x (set_of_entries entries).
Proof. unfold set_of_entries. by rewrite foldl_app. Qed.

Lemma set_of_entries_elem entries x :
  x ∈ set_of_entries entries → x ∈ entries.
Proof.
  induction entries as [|x0 entries IH] using rev_ind;
    [by intros ?%elem_of_nil|].
  rewrite set_of_entries_snoc.
  intros [->|Hx]%elem_of_set_insert_1; apply elem_of_app;
    [right; by left|left; by apply IH].
Qed.

Lemma set_of_entries_represents entries x :
  x ∈ entries → ∃ y, y ∈ set_of_entries entries ∧ version y = version x.
Proof.
  induction entries as [|x0 entries IH] using rev_ind;
    [by intros ?%elem_of_nil|].
  rewrite set_of_entries_snoc.
  intros [Hx| ->%list_elem_of_singleton]%elem_of_app.
  - destruct (IH Hx) as (y & Hy & Hv). exists y.
    split; [by apply elem_of_set_insert_2|done].
  - apply set_insert_represents.
Qed.

Lemma set_of_entries_first before x behind :
  (∀ y, y ∈ before → version y ≠ version x) →
  x ∈ set_of_entries (before ++ x :: behind).
Proof.
  intros Hnew. induction behind as [|a behind IH] using rev_ind.
  - rewrite set_of_entries_snoc. apply set_insert_new.
    intros y Hy%set_of_entries_elem. by apply Hnew.
  - rewrite app_comm_cons, app_assoc, set_of_entries_snoc.
    by apply elem_of_set_insert_2.
Qed.

(** X2. The set the manifest is parsed into is ascending without two
    entries of one version; each of its entries is one of the parsed
    entries; every parsed entry has its version in the set; and of the
    parsed entries of one version the first one is the entry in the set. *)
Theorem set_of_entries_is_the_manifest_set entries :
  sorted (set_of_entries entries) ∧
  (∀ x, x ∈ set_of_entries entries → x ∈ entries) ∧
  (∀ x, x ∈ entries →
        ∃ y, y ∈ set_of_entries entries ∧ version y = version x) ∧
  (∀ before x behind,
     entries = (before ++ x :: behind)%list →
     (∀ y, y ∈ before → version y ≠ version x) →
     x ∈ set_of_entries entries).
Proof.
  split; [apply set_of_entries_sorted|].
  split; [apply set_of_entries_elem|].
  split; [apply set_of_entries_represents|].
  intros before x behind ->. apply set_of_entries_first.
Qed.

End MoreOrderFacts.

(** Three entries in ascending order, and two of one version. *)
Lemma operator_lt_strict_total_witness :
  lt Demo.entry_16a Demo.entry_17a = true ∧
  lt Demo.entry_17a Demo.entry_16a = false ∧
  version Demo.entry_16b = version Demo.entry_16b_old ∧
  lt Demo.entry_16b Demo.entry_16b_old = false.
Proof.
  destruct (operator_lt_strict_total Demo.entry_16a Demo.entry_16b
              Demo.entry_17a) as (_ & Htrans & _).
  destruct (operator_lt_strict_total Demo.entry_16a Demo.entry_17a
              Demo.entry_16a) as (_ & _ & Hasym & _).
  destruct (operator_lt_strict_total Demo.entry_16b Demo.entry_16b_old
              Demo.entry_16a) as (_ & _ & _ & Htotal & Hsame).
  split; [apply Htrans; reflexivity|].
  split; [apply Hasym; reflexivity|].
  split; [apply Htotal; reflexivity|].
  apply Hsame. reflexivity.
Defined.

(** A manifest that lists version 0.4.16-b twice: the first one stays. *)
Lemma set_of_entries_is_the_manifest_set_witness :
  Demo.entry_16b
    ∈ set_of_entries [Demo.entry_17a; Demo.entry_16b; Demo.entry_16b_old] ∧
  ∃ y,
    y ∈ set_of_entries [Demo.entry_17a; Demo.entry_16b; Demo.entry_16b_old] ∧
    version y = version Demo.entry_16b_old.
Proof.
  destruct (set_of_entries_is_the_manifest_set
              [Demo.entry_17a; Demo.entry_16b; Demo.entry_16b_old])
    as (_ & _ & Hrep & Hfirst).
  split.
  - apply (Hfirst [Demo.entry_17a] Demo.entry_16b [Demo.entry_16b_old]);
      [reflexivity|].
    intros y ->%list_elem_of_singleton. discriminate.
  - apply Hrep. right. right. left.
Defined.

(** ** Signature verification *)

Section MoreVerificationFacts.
Context {env : Collaborators}.

(** X3. With fewer than two signatures the entry is rejected before any
    key is recovered. The verification ends by an exception exactly when
    the entry has at least two signatures, is not older than the build and
    one of its signatures recovers to no key. *)
Theorem verifyUpdateSignature_throws_iff this updatePackage :
  let ud := _webUpdateDescription this in
  let hash := signable_hash ud updatePackage in
  ((size (signatures ud) < WEB_UPDATES_SIGNATURE_REQUIREMENT)%nat →
   verifyUpdateSignature this updatePackage = Returned false) ∧
  (verifyUpdateSignature this updatePackage = Threw ↔
     (WEB_UPDATES_SIGNATURE_REQUIREMENT ≤ size (signatures ud))%nat ∧
     git_revision_unix_timestamp ≤ timestamp ud ∧
     ¬ all_recoverable ud hash).
Proof.
  intros ud hash. rewrite verifyUpdateSignature_cases. fold ud; fold hash.
  rewrite all_recoverable_elements.
  destruct (Nat.ltb_spec (size (signatures ud))
              WEB_UPDATES_SIGNATURE_REQUIREMENT).
  { split; [done|]. split; [done|]. intros (? & _). lia. }
  split; [lia|].
  destruct (Z.ltb_spec (timestamp ud) git_revision_unix_timestamp).
  { split; [done|]. intros (_ & ? & _). lia. }
  destruct (decide _) as [Hall|Hn].
  - split; [done|]. intros (_ & _ & ?). done.
  - split; [|done]. intros _. repeat split; [done|lia|done].
Qed.

Lemma signable_hash_differ ud ud' updatePackage :
  differ_only_in_signatures ud ud' →
  signable_hash ud updatePackage = signable_hash ud' updatePackage.
Proof.
  intros (Hv & Hn & Hu & Ht). unfold signable_hash, signable_string.
  replace (clear_signatures ud') with (clear_signatures ud); [done|].
  unfold version in Hv. unfold clear_signatures. congruence.
Qed.

(** X4. Of two entries that differ only in their signatures, the second
    having all signatures of the first and every one of its signatures
    recovering to a key: if the first is authorized, so is the second; and
    if the signatures the second has in addition recover to addresses that
    are no signing keys, both are verified with the same result. *)
Theorem more_signatures_never_revoke this this' updatePackage :
  let ud := _webUpdateDescription this in
  let ud' := _webUpdateDescription this' in
  let hash := signable_hash ud updatePackage in
  differ_only_in_signatures ud ud' →
  signatures ud ⊆ signatures ud' →
  all_recoverable ud' hash →
  (verifyUpdateSignature this updatePackage = Returned true →
   verifyUpdateSignature this' updatePackage = Returned true) ∧
  ((∀ signature address,
      signature ∈ signatures ud' → signature ∉ signatures ud →
      recover_address signature hash = Some address →
      address ∉ WEB_UPDATES_SIGNING_KEYS) →
   verifyUpdateSignature this' updatePackage
   = verifyUpdateSignature this updatePackage).
Proof.
  intros ud ud' hash Hdiffer Hsub Hall'.
  assert (signable_hash ud' updatePackage = hash) as Hhash
    by (symmetry; by apply signable_hash_differ).
  assert (all_recoverable ud hash) as Hall
    by (intros s Hs; apply Hall'; by apply Hsub).
  assert (trusted_signers ud hash ⊆ trusted_signers ud' hash) as Hmono.
  { unfold trusted_signers, recovered_addresses.
    intros a [Ha Hkey]%elem_of_intersection. apply elem_of_intersection.
    split; [|done]. apply elem_of_set_omap in Ha as (s & Hs & Hrec).
    apply elem_of_set_omap. exists s. split; [by apply Hsub|done]. }
  assert (timestamp ud = timestamp ud') as Htime by apply Hdiffer.
  split.
  - rewrite !verifyUpdateSignature_true_iff. fold ud ud'. rewrite Hhash.
    fold hash. intros (Ht & _ & Hsize). split; [lia|]. split; [done|].
    apply subseteq_size in Hmono. lia.
  - intros Houtside.
    assert (trusted_signers ud' hash = trusted_signers ud hash) as Hsame.
    { apply set_eq. intros a. split; [|apply Hmono].
      unfold trusted_signers, recovered_addresses.
      intros [Ha Hkey]%elem_of_intersection. apply elem_of_intersection.
      split; [|done]. apply elem_of_set_omap in Ha as (s & Hs & Hrec).
      apply elem_of_set_omap. exists s. split; [|done].
      destruct (decide (s ∈ signatures ud)) as [|Hnot]; [done|].
      destruct (Houtside s a Hs Hnot Hrec Hkey). }
    rewrite !verifyUpdateSignature_cases. fold ud ud'. rewrite Hhash.
    fold hash. rewrite Hsame, <- Htime.
    pose proof (size_trusted_le ud hash) as Hle.
    pose proof (subseteq_size _ _ Hsub) as Hsizes.
    destruct (timestamp ud <? git_revision_unix_timestamp);
      [by repeat destruct (_ <? _)%nat|].
    destruct (decide (Forall _ (elements (signatures ud')))) as [_|Hn];
      [|destruct Hn; by apply all_recoverable_elements].
    destruct (decide (Forall _ (elements (signatures ud)))) as [_|Hn];
      [|destruct Hn; by apply all_recoverable_elements].
    destruct (Nat.ltb_spec (size (signatures ud'))
                WEB_UPDATES_SIGNATURE_REQUIREMENT);
      destruct (Nat.ltb_spec (size (signatures ud))
                  WEB_UPDATES_SIGNATURE_REQUIREMENT); try done; try lia.
    destruct (Nat.leb_spec WEB_UPDATES_SIGNATURE_REQUIREMENT
                (size (trusted_signers ud hash))); [lia|done].
Qed.

End MoreVerificationFacts.

(** An entry with the signatures of two signing keys and one that
    recovers to no key. *)
Lemma verifyUpdateSignature_throws_iff_witness :
  verifyUpdateSignature (env := Demo.collaborators)
    (Demo.window (Demo.entry 0 4 16 98 {[ "1a" ]} 2000)) "LZMA:site"
  = Returned false ∧
  verifyUpdateSignature (env := Demo.collaborators)
    (Demo.window (Demo.entry 0 4 16 98 {[ "1a"; "2a"; "" ]} 2000)) "LZMA:site"
  = Threw.
Proof.
  split.
  - apply (verifyUpdateSignature_throws_iff (env := Demo.collaborators)
             (Demo.window (Demo.entry 0 4 16 98 {[ "1a" ]} 2000)) "LZMA:site").
    vm_compute. lia.
  - apply (verifyUpdateSignature_throws_iff (env := Demo.collaborators)
             (Demo.window (Demo.entry 0 4 16 98 {[ "1a"; "2a"; "" ]} 2000))
             "LZMA:site").
    split; [vm_compute; lia|]. split; [vm_compute; discriminate|].
    intros Hall. destruct (Hall "") as [a Ha]; [set_solver|]. discriminate.
Defined.

(** The entry signed by two signing keys, and the same entry with a third
    signature, of somebody else. *)
Lemma more_signatures_never_revoke_witness :
  verifyUpdateSignature (env := Demo.collaborators)
    (Demo.window (Demo.entry 0 4 16 98 {[ "1a"; "2a"; "9a" ]} 2000)) "LZMA:site"
  = Returned true.
Proof.
  destruct (more_signatures_never_revoke (env := Demo.collaborators)
              (Demo.window Demo.entry_16b)
              (Demo.window (Demo.entry 0 4 16 98 {[ "1a"; "2a"; "9a" ]} 2000))
              "LZMA:site") as [Hmore _].
  - repeat split; reflexivity.
  - change (({[ "1a"; "2a" ]} : gset string) ⊆ {[ "1a"; "2a"; "9a" ]}).
    set_solver.
  - intros signature Hs.
    change (signature ∈ ({[ "1a"; "2a"; "9a" ]} : gset string)) in Hs.
    rewrite !elem_of_union, !elem_of_singleton in Hs.
    destruct Hs as [[Hs|Hs]|Hs]; rewrite Hs; eexists; reflexivity.
  - apply Hmore. vm_compute. reflexivity.
Defined.

(** ** The update check *)

Section MoreUpdateFacts.
Context {env : Collaborators}.

(** X5. After the start of an update check, [web.json] exists exactly when
    [web.dat] does; files that were both there, or both missing, are as
    before; and the check has requested the manifest from its fixed URL
    with the query and changed nothing else. *)
Theorem checkWebUpdates_both_or_neither queryString this :
  let this' := checkWebUpdates queryString this in
  (is_Some (web_json this') ↔ is_Some (web_dat this')) ∧
  ((is_Some (web_json this) ↔ is_Some (web_dat this)) →
   web_json this' = web_json this ∧ web_dat this' = web_dat this) ∧
  effects this'
    = (effects this
         ++ [NetworkGet (WEB_UPDATES_MANIFEST_URL +:+ queryString)])%list ∧
  web_package this' = web_package this ∧
  client_wallet this' = client_wallet this ∧
  _webUpdateDescription this' = _webUpdateDescription this ∧
  _patchVersion this' = _patchVersion this.
Proof.
  unfold checkWebUpdates.
  destruct (web_json this) as [descriptor|] eqn:Hjson;
    destruct (web_dat this) as [package|] eqn:Hdat.
  - rewrite !bool_decide_eq_true_2 by eauto. simpl. rewrite ?Hjson, ?Hdat.
    split; [split; eauto|]. split; [done|]. done.
  - rewrite (bool_decide_eq_true_2 (is_Some (Some descriptor))) by eauto.
    rewrite (bool_decide_eq_false_2 (is_Some None)) by apply is_Some_None.
    simpl. rewrite Hdat.
    rewrite (bool_decide_eq_false_2 (is_Some None)) by apply is_Some_None.
    simpl. rewrite ?Hjson, ?Hdat. split; [done|]. split; [|done].
    intros [Hboth _]. destruct Hboth as [? [=]]. eauto.
  - rewrite (bool_decide_eq_true_2 (is_Some (Some package))) by eauto.
    rewrite (bool_decide_eq_false_2 (is_Some None)) by apply is_Some_None.
    simpl. rewrite Hdat.
    rewrite (bool_decide_eq_true_2 (is_Some (Some package))) by eauto.
    simpl. rewrite ?Hjson, ?Hdat. split; [done|]. split; [|done].
    intros [_ Hboth]. destruct Hboth as [? [=]]. eauto.
  - rewrite !(bool_decide_eq_false_2 (is_Some None)) by apply is_Some_None.
    simpl. rewrite ?Hjson, ?Hdat. split; [done|]. split; [done|]. done.
Qed.

(** X6. The reply to the manifest request changes no file, not the
    installed package, the wallet or the version; it either leaves the
    description of the update alone and requests nothing, or it sets the
    description to an entry of the manifest that is of the executable's
    major, fork and minor version, of a greater patch version and has at
    least two signatures, and requests the package from the URL of that
    entry. *)
Theorem manifest_reply_requests_an_acceptable_entry showNoUpdatesAlert
    finishedCheckCallback manifestUrl installNow reply this :
  reply_url reply = manifestUrl →
  ∃ this',
    checkWebUpdates_finished showNoUpdatesAlert finishedCheckCallback
      manifestUrl installNow reply this = (Normal, this') ∧
    web_json this' = web_json this ∧ web_dat this' = web_dat this ∧
    web_package this' = web_package this ∧
    client_wallet this' = client_wallet this ∧
    _patchVersion this' = _patchVersion this ∧
    pending_loadWebUpdates this' = pending_loadWebUpdates this ∧
    ((_webUpdateDescription this' = _webUpdateDescription this ∧
      ∀ url, NetworkGet url ∈ effects this' → NetworkGet url ∈ effects this) ∨
     (∃ entries update,
        json_manifest_entries (readAll reply) = Some entries ∧
        update ∈ entries ∧
        acceptable this update ∧
        _webUpdateDescription this' = update ∧
        effects this'
          = (effects this ++ NetworkGet (updatePackageUrl update)
               :: (if finishedCheckCallback then [FinishedCheckCallback]
                   else []))%list)).
Proof.
  intros Hurl. unfold checkWebUpdates_finished.
  rewrite Hurl, String.eqb_refl.
  destruct (json_manifest_entries (readAll reply)) as [entries|] eqn:Hparse.
  - destruct (select_update this _) as [update|] eqn:Hselect.
    + apply select_update_Some in Hselect as [Hin Hacceptable]. simpl in Hin.
      apply set_of_entries_elem in Hin.
      eexists. split; [reflexivity|].
      destruct finishedCheckCallback; simpl.
      * do 6 (split; [done|]). right. exists entries, update.
        do 4 (split; [done|]). by rewrite <- app_assoc.
      * do 6 (split; [done|]). right. exists entries, update.
        do 4 (split; [done|]). done.
    + eexists. split; [reflexivity|].
      destruct showNoUpdatesAlert; simpl; repeat split; try done.
      all: left; split; [done|]; simpl; intros url Hget; try done.
      apply elem_of_app in Hget as [Hget|Hget]; [done|].
      by apply list_elem_of_singleton in Hget.
  - eexists. split; [reflexivity|].
    destruct showNoUpdatesAlert, finishedCheckCallback; simpl;
      repeat split; try done.
    all: left; split; [done|]; simpl; intros url Hget; try done.
    all: repeat (apply elem_of_app in Hget as [Hget|Hget];
                 [|by apply list_elem_of_singleton in Hget]); done.
Qed.

(** X7. The handler of a package reply writes the two files and queues
    the load exactly when the package passes the signature check and the
    user agrees to install it; in every other case files and queue are as
    before; and the handler itself never changes the installed package,
    the wallet or the version. *)
Theorem package_reply_writes_only_with_signature_and_consent
    showNoUpdatesAlert finishedCheckCallback manifestUrl installNow reply
    this :
  reply_url reply ≠ manifestUrl →
  ∃ e this',
    checkWebUpdates_finished showNoUpdatesAlert finishedCheckCallback
      manifestUrl installNow reply this = (e, this') ∧
    web_package this' = web_package this ∧
    client_wallet this' = client_wallet this ∧
    _patchVersion this' = _patchVersion this ∧
    _webUpdateDescription this' = _webUpdateDescription this ∧
    (verifyUpdateSignature this (readAll reply) = Returned true →
     installNow = true →
     web_dat this' = Some (readAll reply) ∧
     web_json this' = Some (Descriptor (_webUpdateDescription this)) ∧
     pending_loadWebUpdates this' = true) ∧
    (verifyUpdateSignature this (readAll reply) ≠ Returned true
     ∨ installNow = false →
     web_dat this' = web_dat this ∧
     web_json this' = web_json this ∧
     pending_loadWebUpdates this' = pending_loadWebUpdates this).
Proof.
  intros Hurl%String.eqb_neq. unfold checkWebUpdates_finished. rewrite Hurl.
  destruct (verifyUpdateSignature this (readAll reply)) as [[|]|].
  - destruct installNow; simpl; eexists _, _; (split; [reflexivity|]).
    + destruct finishedCheckCallback; simpl; do 4 (split; [done|]).
      all: split; [done|]; by intros [|].
    + do 4 (split; [done|]). split; [done|]. done.
  - eexists _, _. split; [reflexivity|].
    destruct showNoUpdatesAlert; simpl; do 4 (split; [done|]); done.
  - eexists _, _. split; [reflexivity|]. do 4 (split; [done|]). done.
Qed.

End MoreUpdateFacts.

(** A signed package the user declines. *)
Lemma package_reply_writes_only_with_signature_and_consent_witness :
  ∃ e this',
    checkWebUpdates_finished (env := Demo.collaborators) true true
      Demo.manifestUrl false Demo.corrupt_reply Demo.window_awaiting_package
    = (e, this') ∧
    web_dat this' = None ∧ web_json this' = None ∧
    pending_loadWebUpdates this' = false.
Proof.
  destruct (package_reply_writes_only_with_signature_and_consent
              (env := Demo.collaborators) true true Demo.manifestUrl false
              Demo.corrupt_reply Demo.window_awaiting_package)
    as (e & this' & Hrun & _ & _ & _ & _ & _ & Hfiles).
  - vm_compute. discriminate.
  - exists e, this'. split; [exact Hrun|]. apply Hfiles. right. reflexivity.
Defined.

(** ** The choice of the update, again *)

Section MoreSelectionFacts.
Context {env : Collaborators}.

Lemma sorted_snoc_below (l : list UpdateDetails) u e :
  sorted (l ++ [u]) → e ∈ l → lt e u = true.
Proof.
  unfold sorted. induction l as [|y l IH]; simpl; [by intros _ ?%elem_of_nil|].
  intros Hsorted. apply StronglySorted_inv in Hsorted as [Hsorted Hy].
  intros [->|He]%elem_of_cons; [|by apply IH].
  rewrite Forall_forall in Hy. apply Hy. apply elem_of_app. right. by left.
Qed.

Lemma sorted_take (l : list UpdateDetails) n : sorted l → sorted (take n l).
Proof.
  unfold sorted. intros Hsorted. revert n.
  induction Hsorted as [|y l Hl IH Hy]; intros [|n]; simpl;
    try constructor; [apply IH|].
  apply Forall_take. exact Hy.
Qed.

(** The entry [select_update] looks at is below the key. *)
Lemma select_update_below this manifest update :
  select_update this manifest = Some update →
  lt update (probe this) = true ∧
  ∃ itr, lower_bound (updates manifest) (probe this) = S itr ∧
         updates manifest !! itr = Some update.
Proof.
  unfold select_update.
  pose proof (lower_bound_below (updates manifest) (probe this)) as Hbelow.
  destruct (lower_bound _ _) as [|itr] eqn:Hbound; [done|].
  destruct (updates manifest !! itr) as [u|] eqn:Hu; [|done].
  destruct (rejected this u); [done|]. intros [= <-].
  split; [|by exists itr].
  rewrite Forall_forall in Hbelow. apply Hbelow.
  apply (list_elem_of_lookup_2 _ itr). rewrite lookup_take_lt by lia. done.
Qed.

(** X8. The update chosen from the manifest set is the entry with the
    greatest patch version among the entries of the executable's major,
    fork and minor version. *)
Theorem select_update_takes_the_latest_patch this manifest update :
  sorted (updates manifest) →
  select_update this manifest = Some update →
  ∀ e, e ∈ updates manifest →
       majorVersion e = _majorVersion this →
       forkVersion e = _forkVersion this →
       minorVersion e = _minorVersion this →
       patchVersion e ≤ patchVersion update.
Proof.
  intros Hsorted Hselect e He Hmajor Hfork Hminor.
  pose proof Hselect as (Hin & Ha & Hb & Hc & _)%select_update_Some.
  apply select_update_below in Hselect as (Hbelow & itr & Hbound & Hu).
  assert (lt e (probe this) = true) as Hebelow.
  { revert Hbelow. unfold lt, probe. simpl. rewrite Ha, Hb, Hc, Hmajor, Hfork, Hminor.
    rewrite !Z.eqb_refl. simpl.
    destruct (Z.eqb_spec (_minorVersion this)
                ((_minorVersion this + 1) mod 256)) as [Heq|]; [|done].
    simpl. pose proof (Z.div_mod (_minorVersion this + 1) 256). lia. }
  pose proof (lower_bound_rest _ (probe this) Hsorted) as Hrest.
  rewrite Hbound in Hrest. rewrite Forall_forall in Hrest.
  rewrite <- (take_drop (S itr) (updates manifest)) in He.
  apply elem_of_app in He as [He|He];
    [|apply Hrest in He; congruence].
  rewrite (take_S_r _ _ _ Hu) in He.
  apply elem_of_app in He as [He| ->%list_elem_of_singleton]; [|lia].
  assert (lt e update = true) as Hlt.
  { apply (sorted_snoc_below (take itr (updates manifest))); [|done].
    rewrite <- (take_S_r _ _ _ Hu). by apply sorted_take. }
  revert Hlt. unfold lt. rewrite Ha, Hb, Hc, Hmajor, Hfork, Hminor.
  rewrite !Z.eqb_refl. simpl. rewrite Z.ltb_lt. lia.
Qed.

(** X9. For an executable of minor version 255 the next minor version
    does not fit the byte of the key and wraps to 0; no manifest gives it
    an update. *)
Theorem select_update_none_at_minor_255 this manifest :
  _minorVersion this = 255 →
  select_update this manifest = None.
Proof.
  intros Hminor.
  destruct (select_update this manifest) as [update|] eqn:Hselect; [|done].
  pose proof Hselect as (_ & Ha & Hb & Hc & _)%select_update_Some.
  apply select_update_below in Hselect as [Hbelow _].
  revert Hbelow. unfold lt, probe. simpl. rewrite Ha, Hb, Hc, Hminor.
  rewrite !Z.eqb_refl. simpl. done.
Qed.

(** X10. An update that was chosen from a manifest, whose package passes
    the signature check, is accepted by the user, decompresses and
    unpacks, is installed by the reply to the package request and the load
    it queues: the files are written, the unpacked files are the installed
    package, and the patch version of the window is that of the update.
    The same manifest then gives no further update. *)
Theorem chosen_update_installs_and_is_not_offered_again showNoUpdatesAlert
    finishedCheckCallback manifestUrl reply this manifest update
    decompressedStream deserializedPackage :
  select_update this manifest = Some update →
  _webUpdateDescription this = update →
  reply_url reply ≠ manifestUrl →
  verifyUpdateSignature this (readAll reply) = Returned true →
  lzma_decompress (readAll reply) = Some decompressedStream →
  raw_unpack decompressedStream = Some deserializedPackage →
  ∃ this',
    package_reply showNoUpdatesAlert finishedCheckCallback manifestUrl true
      reply this = (Normal, this') ∧
    web_dat this' = Some (readAll reply) ∧
    web_json this' = Some (Descriptor update) ∧
    web_package this' = webInterfaceMap_of deserializedPackage ∧
    client_wallet this' = wallet_lock <$> client_wallet this ∧
    _patchVersion this' = patchVersion update ∧
    pending_loadWebUpdates this' = false ∧
    select_update this' manifest = None.
Proof.
  intros Hselect Hdescription Hurl%String.eqb_neq Hverify Hstream Hunpack.
  unfold package_reply, checkWebUpdates_finished. rewrite Hurl, Hverify.
  simpl. unfold process_pending.
  assert (∀ this0, pending_loadWebUpdates
            (if finishedCheckCallback then emit FinishedCheckCallback this0
             else this0) = pending_loadWebUpdates this0) as Hfinish
    by (intros; by destruct finishedCheckCallback).
  rewrite Hfinish. simpl. unfold loadWebUpdates.
  assert (select_update
            (set_patchVersion (patchVersion update) this) manifest = None)
    as Hagain.
  { pose proof Hselect as (_ & itr & Hbound & Hu)%select_update_below.
    unfold select_update in *. change (probe (set_patchVersion _ this))
      with (probe this). rewrite Hbound, Hu in *.
    unfold rejected. simpl. rewrite Z.leb_refl. by rewrite !orb_true_r. }
  destruct finishedCheckCallback; simpl.
  all: match goal with
       | |- context [verifyUpdateSignature ?w ?p] =>
           replace (verifyUpdateSignature w p) with (Returned true)
             by (rewrite <- Hverify; reflexivity)
       end.
  all: rewrite Hstream, Hunpack, Hdescription.
  all: destruct (client_wallet this) as [w|] eqn:Hw; simpl; rewrite ?Hw.
  all: eexists; split; [reflexivity|]; simpl; rewrite ?Hw.
  all: do 6 (split; [done|]); exact Hagain.
Qed.

End MoreSelectionFacts.

(** Only the descriptor is on disk; and both files are. *)
Lemma checkWebUpdates_both_or_neither_witness :
  web_json (checkWebUpdates "?uuid=0" Demo.window_descriptor_only) = None ∧
  web_json (checkWebUpdates "?uuid=0" Demo.window_on_disk)
    = web_json Demo.window_on_disk ∧
  web_dat (checkWebUpdates "?uuid=0" Demo.window_on_disk)
    = web_dat Demo.window_on_disk.
Proof.
  destruct (checkWebUpdates_both_or_neither "?uuid=0"
              Demo.window_descriptor_only) as ([Hjson _] & _).
  destruct (checkWebUpdates_both_or_neither "?uuid=0" Demo.window_on_disk)
    as (_ & Hkept & _).
  split.
  - destruct (web_json (checkWebUpdates "?uuid=0" Demo.window_descriptor_only))
      as [descriptor|]; [|reflexivity].
    destruct (Hjson ltac:(eauto)) as [package Hpackage]. discriminate.
  - apply Hkept. split; intros _; eexists; reflexivity.
Defined.

(** The manifest with 0.4.16-a, 0.4.16-b and 0.4.17-a arrives at the
    executable 0.4.16-a: the package of 0.4.16-b is requested. *)
Lemma manifest_reply_requests_an_acceptable_entry_witness :
  ∃ this',
    checkWebUpdates_finished (env := Demo.collaborators_with_manifest) true
      true Demo.manifestUrl true
      {| reply_url := Demo.manifestUrl; readAll := "manifest" |}
      Demo.window0 = (Normal, this') ∧
    web_json this' = None ∧ web_dat this' = None ∧
    _webUpdateDescription this' = Demo.entry_16b ∧
    effects this'
      = [NetworkGet "http://dacplay.org/web.pak"; FinishedCheckCallback].
Proof.
  destruct (manifest_reply_requests_an_acceptable_entry
              (env := Demo.collaborators_with_manifest) true true
              Demo.manifestUrl true
              {| reply_url := Demo.manifestUrl; readAll := "manifest" |}
              Demo.window0 eq_refl)
    as (this' & Hrun & Hjson & Hdat & _).
  exists this'. split; [exact Hrun|]. split; [exact Hjson|].
  split; [exact Hdat|].
  vm_compute in Hrun. injection Hrun as <-. split; reflexivity.
Defined.

(** The manifest of the examples and the executable 0.4.16-a. *)
Lemma select_update_takes_the_latest_patch_witness :
  select_update Demo.window0 Demo.the_manifest = Some Demo.entry_16b ∧
  patchVersion Demo.entry_16a ≤ patchVersion Demo.entry_16b.
Proof.
  assert (select_update Demo.window0 Demo.the_manifest = Some Demo.entry_16b)
    as Hselect by (vm_compute; reflexivity).
  split; [exact Hselect|].
  apply (select_update_takes_the_latest_patch Demo.window0 Demo.the_manifest
           Demo.entry_16b).
  - unfold sorted. vm_compute. repeat constructor.
  - exact Hselect.
  - vm_compute. left.
  - reflexivity.
  - reflexivity.
  - reflexivity.
Defined.

(** A manifest with a patch for 0.4.255 and an executable 0.4.255-a. *)
Lemma select_update_none_at_minor_255_witness :
  select_update Demo.window_255
    {| updates := [Demo.entry 0 4 255 98 {[ "1a"; "2a" ]} 2000] |} = None.
Proof.
  apply (select_update_none_at_minor_255 Demo.window_255). reflexivity.
Defined.

(** The package of 0.4.16-b arrives, signed and well-formed. *)
Lemma chosen_update_installs_and_is_not_offered_again_witness :
  ∃ this',
    package_reply (env := Demo.collaborators) true true Demo.manifestUrl true
      Demo.good_reply Demo.window_awaiting_package = (Normal, this') ∧
    web_dat this' = Some "LZMA:site" ∧
    web_json this' = Some (Descriptor Demo.entry_16b) ∧
    web_package this' = webInterfaceMap_of [("index.html", "site")] ∧
    client_wallet this' = Some (wallet_lock Demo.the_wallet) ∧
    _patchVersion this' = 98 ∧
    pending_loadWebUpdates this' = false ∧
    select_update this' Demo.the_manifest = None.
Proof.
  apply (chosen_update_installs_and_is_not_offered_again
           (env := Demo.collaborators) true true Demo.manifestUrl
           Demo.good_reply Demo.window_awaiting_package Demo.the_manifest
           Demo.entry_16b "site" [("index.html", "site")]).
  - vm_compute. reflexivity.
  - reflexivity.
  - vm_compute. discriminate.
  - vm_compute. reflexivity.
  - reflexivity.
  - reflexivity.
Defined.

(** ** Loading and removing an update *)

Section MoreLoadFacts.
Context {env : Collaborators}.

(** X11. The loader changes the installed package or the wallet only
    when both files are on disk, the descriptor is readable, the package
    passes the signature check against it, decompresses and unpacks; the
    installed package is then the map of the unpacked files. *)
Theorem loadWebUpdates_installs_only_verified_packages this e this' :
  loadWebUpdates this = (e, this') →
  web_package this' ≠ web_package this ∨
  client_wallet this' ≠ client_wallet this →
  ∃ ud updatePackage decompressedStream deserializedPackage,
    web_json this = Some (Descriptor ud) ∧
    web_dat this = Some updatePackage ∧
    verifyUpdateSignature (set_webUpdateDescription ud this) updatePackage
      = Returned true ∧
    lzma_decompress updatePackage = Some decompressedStream ∧
    raw_unpack decompressedStream = Some deserializedPackage ∧
    web_package this' = webInterfaceMap_of deserializedPackage ∧
    e = Normal.
Proof.
  unfold loadWebUpdates.
  destruct (web_json this) as [[ud|]|] eqn:Hjson;
    destruct (web_dat this) as [updatePackage|] eqn:Hdat;
    try (intros [= <- <-] [[]|[]]; done).
  destruct (verifyUpdateSignature _ updatePackage) as [[|]|] eqn:Hverify;
    try (intros [= <- <-] [[]|[]]; done).
  destruct (lzma_decompress updatePackage) as [decompressedStream|] eqn:Hstream;
    try (intros [= <- <-] [[]|[]]; done).
  destruct (raw_unpack decompressedStream) as [deserializedPackage|]
    eqn:Hunpack; try (intros [= <- <-] [[]|[]]; done).
  intros [= <- <-] _.
  exists ud, updatePackage, decompressedStream, deserializedPackage.
  do 5 (split; [done|]). split; [|done]. simpl.
  by destruct (client_wallet this).
Qed.

(** X12. When both files are on disk and the package does not pass the
    signature check against the descriptor, the loader deletes both files
    and leaves the installed package, the wallet, the patch version and
    the view as they were. *)
Theorem loadWebUpdates_purges_unverified_files this ud updatePackage :
  web_json this = Some (Descriptor ud) →
  web_dat this = Some updatePackage →
  verifyUpdateSignature (set_webUpdateDescription ud this) updatePackage
    = Returned false →
  ∃ this',
    loadWebUpdates this = (Normal, this') ∧
    web_json this' = None ∧ web_dat this' = None ∧
    web_package this' = web_package this ∧
    client_wallet this' = client_wallet this ∧
    _patchVersion this' = _patchVersion this ∧
    effects this' = effects this.
Proof.
  intros Hjson Hdat Hverify. unfold loadWebUpdates.
  rewrite Hjson, Hdat, Hverify. eexists. split; [reflexivity|]. done.
Qed.

(** X13. A descriptor that cannot be read, or whose entry has a signature
    that recovers to no key, makes the loader end by an exception with
    both files still on disk; the update check does not delete them
    either, so every later load ends the same way. *)
Theorem loadWebUpdates_exception_keeps_files this updatePackage queryString :
  web_dat this = Some updatePackage →
  web_json this = Some Unreadable ∨
  (∃ ud, web_json this = Some (Descriptor ud) ∧
         verifyUpdateSignature (set_webUpdateDescription ud this)
           updatePackage = Threw) →
  ∃ this',
    loadWebUpdates this = (Exception, this') ∧
    web_json this' = web_json this ∧ web_dat this' = web_dat this ∧
    web_package this' = web_package this ∧
    web_json (checkWebUpdates queryString this') = web_json this ∧
    web_dat (checkWebUpdates queryString this') = web_dat this ∧
    (loadWebUpdates this').1 = Exception.
Proof.
  intros Hdat [Hjson|(ud & Hjson & Hverify)]; unfold loadWebUpdates at 1;
    rewrite Hjson, Hdat.
  - exists this. split; [reflexivity|]. do 3 (split; [done|]).
    unfold checkWebUpdates, loadWebUpdates. rewrite Hjson, Hdat.
    rewrite !bool_decide_eq_true_2 by eauto. done.
  - rewrite Hverify. eexists. split; [reflexivity|]. simpl.
    do 3 (split; [done|]).
    unfold checkWebUpdates, loadWebUpdates. simpl. rewrite Hjson, Hdat.
    rewrite !bool_decide_eq_true_2 by eauto. simpl.
    split; [done|]. split; [done|].
    replace (verifyUpdateSignature _ updatePackage) with (@Threw bool)
      by (rewrite <- Hverify; reflexivity).
    done.
Qed.

Lemma webInterfaceMap_of_snoc deserializedPackage name content :
  webInterfaceMap_of (deserializedPackage ++ [(name, content)])
  = <[name := content]> (webInterfaceMap_of deserializedPackage).
Proof. unfold webInterfaceMap_of. by rewrite foldl_app. Qed.

Lemma webInterfaceMap_of_lookup_None deserializedPackage name :
  name ∉ deserializedPackage.*1 →
  webInterfaceMap_of deserializedPackage !! name = None.
Proof.
  induction deserializedPackage as [|[name' content'] l IH] using rev_ind;
    [done|].
  rewrite fmap_app, webInterfaceMap_of_snoc. simpl.
  intros Hnot. apply not_elem_of_app in Hnot as [Hl Hlast].
  apply not_elem_of_cons in Hlast as [Hne _].
  rewrite lookup_insert_ne by done. by apply IH.
Qed.

(** X14. The installed package maps the name of every unpacked file to
    its content: a name that occurs once gets the content unpacked with
    it, a name that does not occur is not in the map, and of two files of
    one name the later one is in the map. *)
Theorem webInterfaceMap_of_lookup deserializedPackage :
  (∀ name content,
     NoDup deserializedPackage.*1 →
     (name, content) ∈ deserializedPackage →
     webInterfaceMap_of deserializedPackage !! name = Some content) ∧
  (∀ name,
     name ∉ deserializedPackage.*1 →
     webInterfaceMap_of deserializedPackage !! name = None) ∧
  (∀ name content later,
     name ∉ later.*1 →
     webInterfaceMap_of (deserializedPackage ++ (name, content) :: later)
       !! name = Some content).
Proof.
  assert (∀ l name content (later : list (string * string)),
            name ∉ later.*1 →
            webInterfaceMap_of (l ++ (name, content) :: later) !! name
            = Some content) as Hlast.
  { intros l name content later.
    induction later as [|[name' content'] later IH] using rev_ind.
    - intros _. by rewrite webInterfaceMap_of_snoc, lookup_insert_eq.
    - rewrite fmap_app. simpl. intros Hnot.
      apply not_elem_of_app in Hnot as [Hlater Hlast].
      apply not_elem_of_cons in Hlast as [Hne _].
      rewrite app_comm_cons, app_assoc, webInterfaceMap_of_snoc.
      rewrite lookup_insert_ne by done. by apply IH. }
  split; [|split; [apply webInterfaceMap_of_lookup_None|apply Hlast]].
  intros name content Hnodup Hin.
  apply list_elem_of_split in Hin as (before & later & ->).
  apply Hlast. rewrite fmap_app in Hnodup. simpl in Hnodup.
  apply NoDup_app in Hnodup as (_ & _ & Hnodup).
  by apply NoDup_cons in Hnodup as [Hnot _].
Qed.

(** X15. After a removal the user confirmed, with a wallet in the client:
    neither file is on disk, the loader changes nothing, the update check
    deletes nothing, and a second removal leaves files, installed package
    and wallet as the first one left them. A removal the user declines
    only shows its question. *)
Theorem removeWebUpdates_is_final this w queryString :
  client_wallet this = Some w →
  removeWebUpdates false this
    = Some (emit (MessageBox Question "Update") this) ∧
  ∃ this',
    removeWebUpdates true this = Some this' ∧
    web_json this' = None ∧ web_dat this' = None ∧
    loadWebUpdates this' = (Normal, this') ∧
    web_json (checkWebUpdates queryString this') = None ∧
    web_dat (checkWebUpdates queryString this') = None ∧
    ∃ this'',
      removeWebUpdates true this' = Some this'' ∧
      web_json this'' = web_json this' ∧ web_dat this'' = web_dat this' ∧
      web_package this'' = web_package this' ∧
      client_wallet this'' = client_wallet this'.
Proof.
  intros Hw. split; [reflexivity|].
  unfold removeWebUpdates. simpl. rewrite Hw.
  eexists. split; [reflexivity|]. simpl.
  do 2 (split; [done|]). split; [reflexivity|].
  unfold checkWebUpdates. simpl.
  rewrite ?(bool_decide_eq_false_2 (is_Some None)) by apply is_Some_None.
  simpl. do 2 (split; [done|]).
  eexists. split; [reflexivity|]. done.
Qed.

End MoreLoadFacts.

(** The package on disk is installed: the installed package has changed. *)
Lemma loadWebUpdates_installs_only_verified_packages_witness :
  ∃ ud updatePackage decompressedStream deserializedPackage,
    web_json Demo.window_on_disk = Some (Descriptor ud) ∧
    web_dat Demo.window_on_disk = Some updatePackage ∧
    verifyUpdateSignature (env := Demo.collaborators)
      (set_webUpdateDescription ud Demo.window_on_disk) updatePackage
      = Returned true ∧
    lzma_decompress (Collaborators := Demo.collaborators) updatePackage
      = Some decompressedStream ∧
    raw_unpack (Collaborators := Demo.collaborators) decompressedStream
      = Some deserializedPackage ∧
    web_package (loadWebUpdates (env := Demo.collaborators)
                   Demo.window_on_disk).2
      = webInterfaceMap_of deserializedPackage ∧
    (loadWebUpdates (env := Demo.collaborators) Demo.window_on_disk).1
      = Normal.
Proof.
  apply (loadWebUpdates_installs_only_verified_packages
           (env := Demo.collaborators) Demo.window_on_disk
           (loadWebUpdates (env := Demo.collaborators) Demo.window_on_disk).1
           (loadWebUpdates (env := Demo.collaborators) Demo.window_on_disk).2).
  - vm_compute. reflexivity.
  - right. vm_compute. discriminate.
Defined.

(** On disk: the descriptor of an entry older than the build. *)
Lemma loadWebUpdates_purges_unverified_files_witness :
  ∃ this',
    loadWebUpdates (env := Demo.collaborators)
      (set_web_dat (Some "LZMA:site")
         (set_web_json (Some (Descriptor Demo.entry_16b_old)) Demo.window0))
    = (Normal, this') ∧
    web_json this' = None ∧ web_dat this' = None ∧
    web_package this' = ∅ ∧
    client_wallet this' = Some Demo.the_wallet ∧
    _patchVersion this' = 97 ∧
    effects this' = [].
Proof.
  apply (loadWebUpdates_purges_unverified_files (env := Demo.collaborators)
           (set_web_dat (Some "LZMA:site")
              (set_web_json (Some (Descriptor Demo.entry_16b_old))
                 Demo.window0))
           Demo.entry_16b_old "LZMA:site").
  - reflexivity.
  - reflexivity.
  - vm_compute. reflexivity.
Defined.

(** On disk: a package and a descriptor that cannot be read. *)
Lemma loadWebUpdates_exception_keeps_files_witness :
  ∃ this',
    loadWebUpdates (env := Demo.collaborators)
      (set_web_dat (Some "LZMA:site")
         (set_web_json (Some Unreadable) Demo.window0))
    = (Exception, this') ∧
    web_json this' = Some Unreadable ∧ web_dat this' = Some "LZMA:site" ∧
    web_package this' = ∅ ∧
    web_json (checkWebUpdates "?uuid=0" this') = Some Unreadable ∧
    web_dat (checkWebUpdates "?uuid=0" this') = Some "LZMA:site" ∧
    (loadWebUpdates (env := Demo.collaborators) this').1 = Exception.
Proof.
  apply (loadWebUpdates_exception_keeps_files (env := Demo.collaborators)
           (set_web_dat (Some "LZMA:site")
              (set_web_json (Some Unreadable) Demo.window0))
           "LZMA:site" "?uuid=0").
  - reflexivity.
  - left. reflexivity.
Defined.

(** A package of two files, and one with two files of one name. *)
Lemma webInterfaceMap_of_lookup_witness :
  webInterfaceMap_of [("a.html", "one"); ("b.js", "two")] !! "b.js"
    = Some "two" ∧
  webInterfaceMap_of [("a.html", "one"); ("b.js", "two")] !! "c.css" = None ∧
  webInterfaceMap_of [("a.html", "one"); ("a.html", "two")] !! "a.html"
    = Some "two".
Proof.
  destruct (webInterfaceMap_of_lookup [("a.html", "one"); ("b.js", "two")])
    as (Hin & Hout & _).
  destruct (webInterfaceMap_of_lookup [("a.html", "one")]) as (_ & _ & Hlast).
  split; [|split].
  - apply Hin; [|right; left].
    simpl. repeat constructor; set_solver.
  - apply Hout. simpl. set_solver.
  - apply (Hlast "a.html" "two" []). simpl. set_solver.
Defined.

(** The window with a package on disk. *)
Lemma removeWebUpdates_is_final_witness :
  removeWebUpdates false Demo.window_on_disk
    = Some (emit (MessageBox Question "Update") Demo.window_on_disk) ∧
  ∃ this',
    removeWebUpdates true Demo.window_on_disk = Some this' ∧
    web_json this' = None ∧ web_dat this' = None ∧
    loadWebUpdates (env := Demo.collaborators) this' = (Normal, this').
Proof.
  destruct (removeWebUpdates_is_final (env := Demo.collaborators)
              Demo.window_on_disk Demo.the_wallet "?uuid=0" eq_refl)
    as (Hdeclined & this' & Hrun & Hjson & Hdat & Hload & _).
  split; [exact Hdeclined|].
  exists this'. split; [exact Hrun|]. split; [exact Hjson|].
  split; [exact Hdat|exact Hload].
Defined.

(** ** Deep links, again *)

Section MoreDeepLinkFacts.
Context {env : Collaborators}.

Lemma append_cons c (s r : string) : String c s +:+ r = String c (s +:+ r).
Proof. reflexivity. Qed.

Lemma append_empty_r (s : string) : s +:+ "" = s.
Proof. induction s as [|c s IH]; [done|]. by rewrite append_cons, IH. Qed.

Lemma append_assoc (s r t : string) : (s +:+ r) +:+ t = s +:+ r +:+ t.
Proof. induction s as [|c s IH]; [done|]. by rewrite !append_cons, IH. Qed.

Lemma append_length (s r : string) :
  String.length (s +:+ r) = (String.length s + String.length r)%nat.
Proof.
  induction s as [|c s IH]; [done|]. rewrite append_cons. simpl. by rewrite IH.
Qed.

(** X16. Whatever the URL, [processCustomUrl] changes nothing of the
    window but the view: it may show a warning and give the view the
    focus, and every page it loads is a page of the client's own HTTP
    endpoint, below [http://<endpoint>/#]. *)
Theorem processCustomUrl_loads_only_local_pages url this :
  let this' := processCustomUrl url this in
  (_majorVersion this', _forkVersion this', _minorVersion this',
   _patchVersion this', _webUpdateDescription this')
  = (_majorVersion this, _forkVersion this, _minorVersion this,
     _patchVersion this, _webUpdateDescription this) ∧
  (web_json this', web_dat this', web_package this', client_wallet this',
   httpd_endpoint this', pending_loadWebUpdates this')
  = (web_json this, web_dat this, web_package this, client_wallet this,
     httpd_endpoint this, pending_loadWebUpdates this) ∧
  ∃ added,
    effects this' = (effects this ++ added)%list ∧
    ∀ e, e ∈ added →
         e = WebViewSetFocus ∨
         (∃ title, e = MessageBox Warning title) ∨
         (∃ path,
            e = WebViewLoad
                  (("http://" +:+ httpd_endpoint this +:+ "/#") +:+ path)).
Proof.
  assert (∀ path (w : MainWindow) (shown : list effect) u,
            u = ("http://" +:+ httpd_endpoint this +:+ "/#") +:+ path →
            effects w = (effects this ++ shown)%list →
            (∀ e, e ∈ shown → ∃ title, e = MessageBox Warning title) →
            ∃ added,
              effects (load_and_focus u w) = (effects this ++ added)%list ∧
              ∀ e, e ∈ added →
                   e = WebViewSetFocus ∨
                   (∃ title, e = MessageBox Warning title) ∨
                   (∃ path,
                      e = WebViewLoad
                            (("http://" +:+ httpd_endpoint this +:+ "/#")
                             +:+ path))) as Hload.
  { intros path w shown u -> Heffects Hshown.
    exists (shown ++ [WebViewLoad
                        (("http://" +:+ httpd_endpoint this +:+ "/#") +:+ path);
                      WebViewSetFocus])%list.
    split.
    - simpl. rewrite Heffects, <- !app_assoc. done.
    - intros e [He|He]%elem_of_app; [right; left; by apply Hshown|].
      apply elem_of_cons in He as [->|He]; [right; right; by exists path|].
      apply list_elem_of_singleton in He as ->. by left. }
  assert (∀ e : effect, e ∈ @nil effect → ∃ title, e = MessageBox Warning title)
    as Hnone by (by intros e ?%elem_of_nil).
  assert (effects this = (effects this ++ [])%list) as Hnil
    by (by rewrite app_nil_r).
  unfold processCustomUrl.
  destruct (negb _).
  { do 2 (split; [done|]). exists []. split; [exact Hnil|].
    by intros e ?%elem_of_nil. }
  destruct (QString.split _ _) as [|component0 components].
  { do 2 (split; [done|]). exists [MessageBox Warning "Invalid URL"].
    split; [done|]. intros e ->%list_elem_of_singleton. right. left. eauto. }
  set (str := QString_toLower component0).
  destruct (_ || _).
  { do 2 (split; [done|]). by apply (Hload ("/" +:+ str) this []). }
  destruct (str =? "accounts")%string.
  { do 2 (split; [by destruct components as [|? [|? ?]]|]).
    destruct components as [|component1 [|? ?]].
    - by apply (Hload "/accounts" this []).
    - by apply (Hload ("/accounts/" +:+ component1) this []).
    - apply (Hload "" this []); [by rewrite append_empty_r|done..]. }
  destruct (str =? "blocks")%string.
  { do 2 (split; [by destruct components as [|? [|? ?]];
                    [|destruct (QString_toInt _)|]|]).
    destruct components as [|component1 [|? ?]].
    - by apply (Hload "/blocks" this []).
    - destruct (QString_toInt component1) as [n|].
      + by apply (Hload ("/blocks/" +:+ QString_number (n mod 2 ^ 32)) this []).
      + apply (Hload "" (emit (MessageBox Warning "Invalid Block Number") this)
                 [MessageBox Warning "Invalid Block Number"]);
          [by rewrite append_empty_r|done|].
        intros e ->%list_elem_of_singleton. eauto.
    - apply (Hload "" this []); [by rewrite append_empty_r|done..]. }
  do 2 (split; [done|]). exists []. split; [exact Hnil|].
  by intros e ?%elem_of_nil.
Qed.

(** X17. The scheme of a URL is compared in lower case with the scheme
    macro as it is written: with a macro that is not its own lower-case
    form, as one with a capital letter, no URL is processed at all. *)
Theorem processCustomUrl_needs_a_lower_case_scheme url this :
  QString_toLower CUSTOM_URL_SCHEME ≠ CUSTOM_URL_SCHEME →
  processCustomUrl url this = this.
Proof.
  intros Hcase. unfold processCustomUrl.
  destruct (String.eqb_spec
              (QString_toLower (QString.left url (QString.indexOf url ":")))
              CUSTOM_URL_SCHEME) as [Heq|]; [|done].
  destruct Hcase. rewrite <- Heq. apply QString_toLower_idemp.
Qed.

Lemma prefix_append (p s : string) :
  String.prefix p s = true → ∃ r, s = p +:+ r.
Proof.
  revert s. induction p as [|c p IH]; intros s; [by exists s|].
  destruct s as [|c' s]; simpl; [done|].
  destruct (Ascii.ascii_dec c c') as [->|]; [|done].
  intros [r ->]%IH. exists r. by rewrite append_cons.
Qed.

Lemma indexOf_ge s ch : -1 ≤ QString.indexOf s ch.
Proof.
  induction s as [|c s IH]; simpl; [done|].
  destruct (Ascii.eqb c ch); [lia|].
  destruct (QString.indexOf s ch <? 0); lia.
Qed.

Lemma indexOf_append_found s ch r :
  QString.indexOf s ch = -1 →
  QString.indexOf (s +:+ String ch r) ch = Z.of_nat (String.length s).
Proof.
  induction s as [|c s IH].
  - intros _. change ("" +:+ String ch r) with (String ch r). simpl.
    by rewrite Ascii.eqb_refl.
  - rewrite append_cons. simpl. destruct (Ascii.eqb c ch); [done|].
    pose proof (indexOf_ge s ch) as Hge.
    destruct (Z.ltb_spec (QString.indexOf s ch) 0); [|lia].
    intros _. rewrite IH by lia.
    destruct (Z.ltb_spec (Z.of_nat (String.length s)) 0); lia.
Qed.

Lemma substring_prefix (s r : string) :
  String.substring 0 (String.length s) (s +:+ r) = s.
Proof.
  induction s as [|c s IH]; [by destruct r|].
  rewrite append_cons. simpl. by rewrite IH.
Qed.

Lemma substring_suffix (s r : string) :
  String.substring (String.length s) (String.length r) (s +:+ r) = r.
Proof.
  induction s as [|c s IH]; [|by rewrite append_cons].
  change ("" +:+ r) with r. simpl.
  induction r as [|c r IH]; simpl; [done|]. by rewrite IH.
Qed.

Lemma left_append s c r :
  QString.left (s +:+ String c r) (Z.of_nat (String.length s)) = s.
Proof.
  unfold QString.left, QString.size. rewrite append_length. simpl.
  destruct (Z.ltb_spec (Z.of_nat (String.length s)) 0); [lia|].
  destruct (Z.leb_spec (Z.of_nat (String.length s + S (String.length r)))
              (Z.of_nat (String.length s))); [lia|].
  simpl. rewrite Nat2Z.id. apply substring_prefix.
Qed.

Lemma mid_append s c r :
  QString.mid (s +:+ String c r) (Z.of_nat (String.length s) + 1) = r.
Proof.
  unfold QString.mid, QString.size. rewrite append_length. simpl.
  destruct (Z.ltb_spec (Z.of_nat (String.length s + S (String.length r)))
              (Z.of_nat (String.length s) + 1)); [lia|].
  replace (Z.to_nat (Z.of_nat (String.length s) + 1))
    with (String.length (s +:+ String c "")) by (rewrite append_length; simpl; lia).
  replace (String.length s + S (String.length r)
           - String.length (s +:+ String c ""))%nat
    with (String.length r) by (rewrite append_length; simpl; lia).
  replace (s +:+ String c r) with ((s +:+ String c "") +:+ r)
    by (by rewrite append_assoc).
  apply substring_suffix.
Qed.

Lemma has_custom_scheme_append r :
  QString_toLower CUSTOM_URL_SCHEME = CUSTOM_URL_SCHEME →
  QString.indexOf CUSTOM_URL_SCHEME ":" = -1 →
  has_custom_scheme (CUSTOM_URL_SCHEME +:+ ":" +:+ r).
Proof.
  intros Hlower Hcolon. unfold has_custom_scheme.
  change (":" +:+ r) with (String ":" r).
  rewrite (indexOf_append_found _ _ _ Hcolon), left_append. done.
Qed.

(** X18. With a scheme macro in lower case and without a colon, every
    argument that [BitSharesApp::run] passes on as a URL (the second
    argument, if it starts with the scheme and a colon) passes the scheme
    test of [processCustomUrl]. *)
Theorem url_argument_has_custom_scheme arguments url :
  QString_toLower CUSTOM_URL_SCHEME = CUSTOM_URL_SCHEME →
  QString.indexOf CUSTOM_URL_SCHEME ":" = -1 →
  url_argument arguments = Some url →
  arguments !! 1%nat = Some url ∧ has_custom_scheme url.
Proof.
  intros Hlower Hcolon. unfold url_argument.
  destruct arguments as [|argument0 [|argument1 arguments]]; [done..|].
  destruct (String.prefix _ argument1) eqn:Hprefix; [|done].
  intros [= <-]. split; [done|].
  apply prefix_append in Hprefix as [r ->].
  rewrite append_assoc. by apply has_custom_scheme_append.
Qed.

(** X19. A URL for [accounts] or [blocks] with more than two components
    is not refused: the bare page [http://<endpoint>/#] is loaded. A URL
    for [blocks] whose second component is no number shows the warning
    and then loads the bare page as well. *)
Theorem processCustomUrl_loads_the_bare_page url this component0 component1
    rest :
  has_custom_scheme url →
  url_components url = component0 :: component1 :: rest →
  (QString_toLower component0 = "accounts"
   ∨ QString_toLower component0 = "blocks" →
   rest ≠ [] →
   effects (processCustomUrl url this)
   = (effects this
        ++ [WebViewLoad ("http://" +:+ httpd_endpoint this +:+ "/#");
            WebViewSetFocus])%list) ∧
  (QString_toLower component0 = "blocks" →
   rest = [] →
   QString_toInt component1 = None →
   effects (processCustomUrl url this)
   = (effects this
        ++ [MessageBox Warning "Invalid Block Number";
            WebViewLoad ("http://" +:+ httpd_endpoint this +:+ "/#");
            WebViewSetFocus])%list).
Proof.
  unfold has_custom_scheme, url_components, processCustomUrl.
  intros -> ->. rewrite String.eqb_refl. simpl. split.
  - intros [-> | ->] Hrest; simpl; destruct rest as [|? ?]; try done;
      simpl; by rewrite <- app_assoc.
  - intros -> -> ->. simpl. by rewrite <- !app_assoc.
Qed.

End MoreDeepLinkFacts.

Section ComponentFacts.

Lemma indexOf_cons_none c s ch :
  QString.indexOf (String c s) ch = -1 →
  Ascii.eqb c ch = false ∧ QString.indexOf s ch = -1.
Proof.
  simpl. destruct (Ascii.eqb c ch); [done|].
  pose proof (indexOf_ge s ch).
  destruct (Z.ltb_spec (QString.indexOf s ch) 0); [|lia].
  intros _. split; [done|lia].
Qed.

Lemma indexOf_append_none a b ch :
  QString.indexOf a ch = -1 → QString.indexOf b ch = -1 →
  QString.indexOf (a +:+ b) ch = -1.
Proof.
  induction a as [|c a IH]; [done|].
  intros [Hc Ha]%indexOf_cons_none Hb. rewrite append_cons. simpl.
  rewrite Hc, (IH Ha Hb). done.
Qed.

Lemma append_eq_empty (a b : string) : a +:+ b = "" → a = "" ∧ b = "".
Proof. destruct a; [done|]. by rewrite append_cons. Qed.

(** Splitting a text without the separator that is followed by nothing, or
    by the separator and more text. *)
Lemma split_from_part sep part x :
  QString.indexOf x sep = -1 →
  QString.split_from sep part x
  = if String.eqb (part +:+ x) "" then [] else [part +:+ x].
Proof.
  revert part. induction x as [|c x IH]; intros part.
  - intros _. simpl. by rewrite append_empty_r.
  - intros [Hc Hx]%indexOf_cons_none. simpl. rewrite Hc, (IH _ Hx).
    by rewrite append_assoc.
Qed.

Lemma split_from_separator sep part x rest :
  QString.indexOf x sep = -1 →
  QString.split_from sep part (x +:+ String sep rest)
  = if String.eqb (part +:+ x) "" then QString.split_from sep "" rest
    else (part +:+ x) :: QString.split_from sep "" rest.
Proof.
  revert part. induction x as [|c x IH]; intros part.
  - intros _. change ("" +:+ String sep rest) with (String sep rest). simpl.
    by rewrite Ascii.eqb_refl, append_empty_r.
  - intros [Hc Hx]%indexOf_cons_none. rewrite append_cons. simpl.
    rewrite Hc, (IH _ Hx). by rewrite append_assoc.
Qed.

Lemma split_join sep parts :
  Forall (λ part, part ≠ "" ∧ QString.indexOf part sep = -1) parts →
  QString.split sep (QString.join (String sep "") parts) = parts.
Proof.
  unfold QString.split. induction 1 as [|x parts [Hx Hsep] Hparts IH];
    [done|].
  destruct parts as [|y parts].
  - simpl. rewrite (split_from_part _ _ _ Hsep).
    change ("" +:+ x) with x. by destruct (String.eqb_spec x "").
  - change (QString.join (String sep "") (x :: y :: parts))
      with (x +:+ String sep "" +:+ QString.join (String sep "") (y :: parts)).
    change (String sep "" +:+ ?t) with (String sep t).
    rewrite (split_from_separator _ _ _ _ Hsep), IH.
    change ("" +:+ x) with x. by destruct (String.eqb_spec x "").
Qed.

Lemma split_from_parts sep part s :
  QString.indexOf part sep = -1 →
  Forall (λ part, part ≠ "" ∧ QString.indexOf part sep = -1)
    (QString.split_from sep part s).
Proof.
  revert part. induction s as [|c s IH]; intros part Hpart; simpl.
  - destruct (String.eqb_spec part ""); by repeat constructor.
  - destruct (Ascii.eqb c sep) eqn:Hc.
    + destruct (String.eqb_spec part ""); [by apply IH|].
      constructor; [done|by apply IH].
    + apply IH. apply indexOf_append_none; [done|]. simpl. by rewrite Hc.
Qed.

Lemma remove_leading_slashes n t :
  QString.remove_leading "/"
    (string_of_list_ascii (replicate n "/"%char) +:+ t)
  = QString.remove_leading "/" t.
Proof.
  induction n as [|n IH]; [done|].
  change (string_of_list_ascii (replicate (S n) "/"%char))
    with (String "/" (string_of_list_ascii (replicate n "/"%char))).
  rewrite append_cons. simpl. exact IH.
Qed.

Lemma remove_leading_join parts :
  Forall (λ part, part ≠ "" ∧ QString.indexOf part "/" = -1) parts →
  QString.remove_leading "/" (QString.join "/" parts) = QString.join "/" parts.
Proof.
  destruct 1 as [|x parts [Hx Hsep] _]; [done|].
  destruct x as [|c x]; [done|].
  apply indexOf_cons_none in Hsep as [Hc _].
  destruct parts; simpl; rewrite ?append_cons; simpl; by rewrite Hc.
Qed.

(** X20. The components of a URL are never empty and never contain a
    slash. A URL made of a scheme without a colon, a colon, any number of
    slashes and components joined by slashes, the components being not
    empty and without a slash, is split into just these components. *)
Theorem url_components_round_trip scheme n parts :
  QString.indexOf scheme ":" = -1 →
  Forall (λ part, part ≠ "" ∧ QString.indexOf part "/" = -1) parts →
  url_components
    (scheme +:+ ":" +:+ string_of_list_ascii (replicate n "/"%char)
       +:+ QString.join "/" parts) = parts ∧
  ∀ url,
    Forall (λ part, part ≠ "" ∧ QString.indexOf part "/" = -1)
      (url_components url).
Proof.
  intros Hscheme Hparts. split.
  - unfold url_components.
    change (":" +:+ ?t) with (String ":" t).
    rewrite (indexOf_append_found _ _ _ Hscheme), mid_append.
    rewrite remove_leading_slashes, (remove_leading_join _ Hparts).
    by apply split_join.
  - intros url. unfold url_components, QString.split.
    by apply split_from_parts.
Qed.

End ComponentFacts.

(** The URLs [xts:/accounts/alice] and [xts:///accounts/alice]. *)
Lemma url_components_round_trip_witness :
  url_components "xts:/accounts/alice" = ["accounts"; "alice"] ∧
  url_components "xts:///accounts/alice" = ["accounts"; "alice"].
Proof.
  split.
  - apply (url_components_round_trip "xts" 1 ["accounts"; "alice"]);
      [reflexivity|].
    repeat constructor; discriminate.
  - apply (url_components_round_trip "xts" 3 ["accounts"; "alice"]);
      [reflexivity|].
    repeat constructor; discriminate.
Defined.

(** A scheme macro written [XTS]. *)
Lemma processCustomUrl_needs_a_lower_case_scheme_witness :
  processCustomUrl (env := Demo.with_scheme "XTS") "XTS:home" Demo.window0
    = Demo.window0 ∧
  processCustomUrl (env := Demo.with_scheme "XTS") "xts:home" Demo.window0
    = Demo.window0.
Proof.
  split;
    apply (processCustomUrl_needs_a_lower_case_scheme
             (env := Demo.with_scheme "XTS")); discriminate.
Defined.

(** The program is started with a URL as its argument. *)
Lemma url_argument_has_custom_scheme_witness :
  url_argument (env := Demo.collaborators) ["play"; "xts:accounts/alice"]
    = Some "xts:accounts/alice" ∧
  has_custom_scheme (env := Demo.collaborators) "xts:accounts/alice".
Proof.
  assert (url_argument (env := Demo.collaborators)
            ["play"; "xts:accounts/alice"] = Some "xts:accounts/alice")
    as Hargument by reflexivity.
  split; [exact Hargument|].
  apply (url_argument_has_custom_scheme (env := Demo.collaborators)
           ["play"; "xts:accounts/alice"] "xts:accounts/alice");
    [reflexivity|reflexivity|exact Hargument].
Defined.

(** A URL for an account with a third component, and one for a block
    that is not a number. *)
Lemma processCustomUrl_loads_the_bare_page_witness :
  effects (processCustomUrl (env := Demo.collaborators)
             "xts:accounts/alice/extra" Demo.window0)
    = [WebViewLoad "http://127.0.0.1:9989/#"; WebViewSetFocus] ∧
  effects (processCustomUrl (env := Demo.collaborators)
             "xts:blocks/first" Demo.window0)
    = [MessageBox Warning "Invalid Block Number";
       WebViewLoad "http://127.0.0.1:9989/#"; WebViewSetFocus].
Proof.
  split.
  - apply (processCustomUrl_loads_the_bare_page (env := Demo.collaborators)
             "xts:accounts/alice/extra" Demo.window0 "accounts" "alice"
             ["extra"]); [reflexivity|reflexivity| |discriminate].
    left. reflexivity.
  - apply (processCustomUrl_loads_the_bare_page (env := Demo.collaborators)
             "xts:blocks/first" Demo.window0 "blocks" "first" []);
      reflexivity.
Defined.

(** ** The wallet and the navigation *)

Section MoreNavigationFacts.
Context {env : Collaborators}.

Lemma wallet_unlock_wrong password w :
  password ≠ wallet_password w → wallet_unlock password w = None.
Proof.
  intros Hwrong%String.eqb_neq. unfold wallet_unlock.
  by rewrite Hwrong, andb_false_r.
Qed.

Lemma unlock_loop_wrong answers w this :
  Forall (λ answer, answer ≠ Some (wallet_password w)) answers →
  (unlock_loop answers w this).1 = w.
Proof.
  intros Hwrong. revert this.
  induction Hwrong as [|answer answers Hanswer _ IH]; intros this; [done|].
  simpl. destruct answer as [password|]; [|done].
  rewrite wallet_unlock_wrong by congruence. apply IH.
Qed.

Lemma unlock_loop_right wrong rest w this :
  is_open w = true →
  Forall (λ password, password ≠ wallet_password w) wrong →
  ∃ this' w',
    unlock_loop ((Some <$> wrong) ++ Some (wallet_password w) :: rest) w this
    = (w', this') ∧
    is_unlocked w' = true ∧ is_open w' = true ∧
    wallet_accounts w' = wallet_accounts w ∧
    effects this'
    = (effects this ++ replicate (S (length wrong)) UnlockPrompt)%list ∧
    set_client_wallet (Some w') this'
    = set_client_wallet (Some w') (set_client_wallet (Some w') this').
Proof.
  intros Hopen Hwrong. revert this.
  induction Hwrong as [|password wrong Hpassword _ IH]; intros this.
  - simpl. unfold wallet_unlock. rewrite Hopen, String.eqb_refl. simpl.
    eexists _, _. split; [reflexivity|]. done.
  - simpl. rewrite wallet_unlock_wrong by done.
    destruct (IH (emit UnlockPrompt this))
      as (this' & w' & Hloop & Hu & Ho & Ha & He & Hs).
    exists this', w'. split; [exact Hloop|]. do 3 (split; [done|]).
    split; [|done]. rewrite He. simpl. by rewrite <- app_assoc.
Qed.

(** X21. A wallet that is open and locked is unlocked by the dialog only
    with its password. If none of the answers is the password, the
    wallet stays as it is and the result is false. If the password comes
    after wrong passwords only, the result is true, the wallet is
    unlocked, and the dialog was shown once for each wrong password and
    once for the right one; the answers after it are not asked for. *)
Theorem walletIsUnlocked_needs_the_password this w :
  client_wallet this = Some w →
  is_open w = true →
  is_unlocked w = false →
  (∀ answers,
     Forall (λ answer, answer ≠ Some (wallet_password w)) answers →
     ∃ this',
       walletIsUnlocked true answers this = Some (false, this') ∧
       client_wallet this' = Some w) ∧
  (∀ wrong rest,
     Forall (λ password, password ≠ wallet_password w) wrong →
     ∃ this' w',
       walletIsUnlocked true
         ((Some <$> wrong) ++ Some (wallet_password w) :: rest) this
       = Some (true, this') ∧
       client_wallet this' = Some w' ∧
       is_unlocked w' = true ∧
       effects this'
       = (effects this ++ replicate (S (length wrong)) UnlockPrompt)%list).
Proof.
  intros Hw Hopen Hlocked. split.
  - intros answers Hwrong. unfold walletIsUnlocked.
    rewrite Hw, Hopen, Hlocked. simpl.
    pose proof (unlock_loop_wrong answers w this Hwrong) as Hsame.
    destruct (unlock_loop answers w this) as [w' this']. simpl in Hsame.
    subst w'. rewrite Hlocked. eexists. split; [reflexivity|]. done.
  - intros wrong rest Hwrong. unfold walletIsUnlocked.
    rewrite Hw, Hopen, Hlocked. simpl.
    destruct (unlock_loop_right wrong rest w this Hopen Hwrong)
      as (this' & w' & -> & Hu & _ & _ & He & _).
    rewrite Hu. eexists _, w'. split; [reflexivity|]. done.
Qed.

(** A wallet found unlocked is found unlocked again, without a dialog. *)
Lemma walletIsUnlocked_again prompt answers this this' :
  walletIsUnlocked prompt answers this = Some (true, this') →
  ∀ prompt' answers',
    walletIsUnlocked prompt' answers' this' = Some (true, this').
Proof.
  unfold walletIsUnlocked.
  destruct (client_wallet this) as [w|] eqn:Hw; [|done].
  destruct (is_open w) eqn:Hopen; [|done]. simpl.
  destruct (is_unlocked w) eqn:Hunlocked.
  - intros [= <-] prompt' answers'. rewrite Hw. simpl.
    rewrite Hopen. simpl. by rewrite Hunlocked.
  - destruct prompt; [|done].
    assert (∀ answers w this,
              is_open w = true →
              is_open (unlock_loop answers w this).1 = true) as Hstays.
    { clear. induction answers as [|[password|] answers IH];
        intros w this Hopen; simpl; [done| |done].
      unfold wallet_unlock. rewrite Hopen. simpl.
      destruct (password =? wallet_password w)%string; [done|by apply IH]. }
    specialize (Hstays answers w this Hopen).
    destruct (unlock_loop answers w this) as [w' this1]. simpl in Hstays.
    destruct (is_unlocked w') eqn:Hunlocked'; [|done].
    intros [= <-] prompt' answers'. simpl. by rewrite Hstays, Hunlocked'.
Qed.

(** X22. [goToBlock] and [goToTransfer] ask for the wallet before they
    call [navigateTo], which asks again: the second question never shows
    a dialog, and both do exactly what [navigateTo] does with the
    answers to the first, also where that is not defined. *)
Theorem double_wallet_check_asks_once arg blockNumber component0 components
    answers answers' this :
  goToBlock blockNumber answers answers' this
  = navigateTo ("/blocks/" +:+ QString_number blockNumber) answers this ∧
  goToTransfer arg (component0 :: components) answers answers' this
  = navigateTo
      (let t :=
         transfer_parameters (drop 2 (component0 :: components))
           {| sender := ""; amount := ""; asset := ""; memo := "" |} in
       arg (arg (arg (arg (arg
         "/transfer?from=%1&to=%2&amount=%3&asset=%4&memo=%5"
         (sender t)) component0) (amount t)) (asset t)) (memo t))
      answers this.
Proof.
  unfold goToBlock, goToTransfer, navigateTo.
  destruct (walletIsUnlocked promptToUnlock_default answers this)
    as [[[|] this1]|] eqn:Hfirst; simpl; [|done..].
  by rewrite (walletIsUnlocked_again _ _ _ _ Hfirst).
Qed.

End MoreNavigationFacts.

(** The locked wallet of the examples, first a wrong password, then the
    right one; and a user who cancels. *)
Lemma walletIsUnlocked_needs_the_password_witness :
  (∃ this',
     walletIsUnlocked true [Some "guess"; Some "Secret"; None]
       Demo.locked_window = Some (false, this') ∧
     client_wallet this' = Some (wallet_lock Demo.the_wallet)) ∧
  (∃ this' w',
     walletIsUnlocked true [Some "guess"; Some "secret"; Some "more"]
       Demo.locked_window = Some (true, this') ∧
     client_wallet this' = Some w' ∧
     is_unlocked w' = true ∧
     effects this' = [UnlockPrompt; UnlockPrompt]).
Proof.
  destruct (walletIsUnlocked_needs_the_password Demo.locked_window
              (wallet_lock Demo.the_wallet) eq_refl eq_refl eq_refl)
    as [Hwrong Hright].
  split.
  - apply (Hwrong [Some "guess"; Some "Secret"; None]).
    repeat constructor; discriminate.
  - apply (Hright ["guess"] [Some "more"]).
    repeat constructor. discriminate.
Defined.

(** ** The parameters of a transfer and of a referral code *)

Section ParameterFacts.
Context {env : Collaborators}.

Lemma lookup_list_to_map_snoc (l : list (string * string)) k v key :
  (list_to_map (l ++ [(k, v)]) : gmap string string) !! key
  = match (list_to_map l : gmap string string) !! key with
    | Some x => Some x
    | None => if decide (key = k) then Some v else None
    end.
Proof.
  rewrite list_to_map_app, lookup_union.
  destruct ((list_to_map l : gmap string string) !! key) as [x|]; simpl.
  - by destruct (_ !! key).
  - case_decide as Hk.
    + subst. by rewrite lookup_insert_eq.
    + rewrite lookup_insert_ne by done. by rewrite lookup_empty.
Qed.

(** X23. When the tokens after the recipient of a transfer link are
    names among amount, memo, from and asset, each followed by a value,
    every field gets the value of the last occurrence of its name and
    keeps its initial text when its name does not occur; a single token
    left over at the end is ignored. *)
Theorem transfer_parameters_last_value_wins
    (pairs : list (string * string)) trailing t :
  Forall (λ kv, kv.1 ∈ ["amount"; "memo"; "from"; "asset"]) pairs →
  (length trailing ≤ 1)%nat →
  let values : gmap string string := list_to_map (reverse pairs) in
  transfer_parameters (flat_map (λ kv, [kv.1; kv.2]) pairs ++ trailing) t
  = {| sender := default (sender t) (values !! "from");
       amount := default (amount t) (values !! "amount");
       asset := default (asset t) (values !! "asset");
       memo := default (memo t) (values !! "memo") |}.
Proof.
  intros Hnames Htrailing. simpl. revert t.
  induction Hnames as [|[k v] pairs Hk _ IH]; intros t.
  - simpl. rewrite !lookup_empty. simpl.
    destruct t, trailing as [|? [|? ?]]; simpl in *; [done|done|lia].
  - rewrite reverse_cons, !lookup_list_to_map_snoc.
    simpl in Hk. rewrite !elem_of_cons in Hk.
    destruct Hk as [->|[->|[->|[->|[]%elem_of_nil]]]]; simpl; rewrite IH;
      simpl;
      destruct (_ !! "from"), (_ !! "amount"), (_ !! "asset"), (_ !! "memo");
      reflexivity.
Qed.

(** X24. The loop of [goToRefCode] gives every name the token after it,
    also a name it does not know. With an even number of tokens the
    faucet and the code are the values of the last occurrence of their
    names; with an odd number the loop takes a token from an empty
    list. *)
Theorem refcode_parameters_pairs (pairs : list (string * string)) faucet code :
  let values : gmap string string := list_to_map (reverse pairs) in
  refcode_parameters (flat_map (λ kv, [kv.1; kv.2]) pairs) faucet code
  = Some (default faucet (values !! "faucet"),
          default code (values !! "code")) ∧
  ∀ dangling,
    refcode_parameters (flat_map (λ kv, [kv.1; kv.2]) pairs ++ [dangling])
      faucet code
    = None.
Proof.
  simpl. revert faucet code.
  induction pairs as [|[k v] pairs IH]; intros faucet code.
  - done.
  - rewrite reverse_cons, !lookup_list_to_map_snoc. simpl.
    destruct (String.eqb_spec k "faucet") as [->|Hfaucet];
      [destruct (IH v code) as [IH1 IH2]
      |destruct (String.eqb_spec k "code") as [->|Hcode];
         [destruct (IH faucet v) as [IH1 IH2]
         |destruct (IH faucet code) as [IH1 IH2]]].
    all: split; [rewrite IH1|exact IH2].
    all: destruct (_ !! "faucet"), (_ !! "code"); simpl;
      repeat case_decide; simplify_eq; reflexivity.
Qed.

End ParameterFacts.

(** A transfer link that names the amount twice and ends in a token
    without a value. *)
Lemma transfer_parameters_last_value_wins_witness :
  transfer_parameters
    ["amount"; "5"; "asset"; "XTS"; "amount"; "7"; "memo"]
    {| sender := ""; amount := ""; asset := ""; memo := "" |}
  = {| sender := ""; amount := "7"; asset := "XTS"; memo := "" |}.
Proof.
  apply (transfer_parameters_last_value_wins
           [("amount", "5"); ("asset", "XTS"); ("amount", "7")] ["memo"]).
  - repeat constructor; vm_compute; set_solver.
  - simpl. lia.
Defined.

(** ** The login handshake *)

Section MoreLoginFacts.
Context {env : Collaborators}.

Lemma unlock_loop_prompts answers w this :
  ∃ n, effects (unlock_loop answers w this).2
       = (effects this ++ replicate n UnlockPrompt)%list.
Proof.
  revert this. induction answers as [|answer answers IH]; intros this; simpl.
  - exists 0%nat. by rewrite app_nil_r.
  - destruct answer as [password|]; simpl; [|by exists 1%nat].
    destruct (wallet_unlock password w); simpl; [by exists 1%nat|].
    destruct (IH (emit UnlockPrompt this)) as [n Hn].
    exists (S n). rewrite Hn. simpl. by rewrite <- app_assoc.
Qed.

(** [navigateTo] shows the unlock dialog and runs a script in the page;
    it does nothing else. *)
Lemma navigateTo_effects_kind path answers this this' :
  navigateTo path answers this = Some this' →
  ∃ n l,
    effects this' = (effects this ++ replicate n UnlockPrompt ++ l)%list ∧
    (l = [] ∨ l = [EvaluateJavaScript ("navigate_to('" +:+ path +:+ "')")]).
Proof.
  unfold navigateTo, walletIsUnlocked.
  destruct (client_wallet this) as [w|]; [|done].
  destruct (is_open w); simpl;
    [|intros [= <-]; exists 0%nat, []; simpl; rewrite app_nil_r; auto].
  destruct (is_unlocked w) eqn:Hu; simpl;
    [intros [= <-]; exists 0%nat; by eexists; eauto|].
  destruct promptToUnlock_default.
  - destruct (unlock_loop_prompts answers w this) as [n Hn].
    destruct (unlock_loop answers w this) as [w' this1] eqn:Hloop.
    simpl in *. destruct (is_unlocked w'); simpl; intros [= <-]; simpl.
    + exists n. eexists. split; [|by right]. by rewrite Hn, <- app_assoc.
    + exists n, []. split; [|by left]. by rewrite Hn, app_nil_r.
  - intros [= <-]. exists 0%nat, []. simpl. rewrite app_nil_r. auto.
Qed.

(** X25. When [doLogin] opens the external browser, the client has its
    wallet, the two leading components parsed as the server's one-time
    key and as a signature of an account the chain knows, the user
    confirmed the login with the only account of the wallet or chose an
    account where the wallet has several, and the wallet signed the hash
    of the shared secret as that account. The address is made from the
    remaining components joined after [http://]; its query is the query
    that text has, followed by the client key, the account name, the
    server key and the signature; its fragment is replaced by the shared
    secret. *)
Theorem doLogin_opens_the_browser_after_consent inputs components this this'
    url query fragment :
  doLogin inputs components this = Some this' →
  OpenInExternalBrowser url query fragment ∈ effects this' →
  OpenInExternalBrowser url query fragment ∉ effects this →
  ∃ component0 component1 returnUrl serverOneTimeKey serverAccountKey secret
    w loginUser signature,
    components = component0 :: component1 :: returnUrl ∧
    parse_public_key component0 = Some serverOneTimeKey ∧
    recover_public_key component1 (sha256_hash serverOneTimeKey)
    = Some serverAccountKey ∧
    get_shared_secret (generated_key inputs) serverOneTimeKey = Some secret ∧
    is_Some (account_record inputs serverAccountKey) ∧
    client_wallet this = Some w ∧
    (wallet_accounts w = [loginUser] ∧ login_confirmed inputs = true ∨
     (2 ≤ length (wallet_accounts w))%nat ∧
     account_chosen inputs = Some loginUser) ∧
    wallet_sign_hash w loginUser (sha256_hash secret) = Some signature ∧
    url = "http://" +:+ QString.join "/" returnUrl ∧
    fragment = as_string secret ∧
    query
    = (QUrl_query url
       ++ [("client_key", as_string (get_public_key (generated_key inputs)));
           ("client_name", loginUser);
           ("server_key", as_string serverOneTimeKey);
           ("signed_secret", as_string signature)])%list.
Proof.
  intros Hlogin Hin Hnew.
  assert (∀ e this1,
            effects this' = effects (emit e this1) →
            (∀ u q f, e ≠ OpenInExternalBrowser u q f) →
            OpenInExternalBrowser url query fragment ∈ effects this1)
    as Hlast.
  { intros e this1 Heq He. rewrite Heq in Hin. simpl in Hin.
    apply elem_of_app in Hin as [Hin|Hin%list_elem_of_singleton]; [done|].
    by destruct (He url query fragment). }
  unfold doLogin in Hlogin.
  destruct components as [|component0 components]; [done|].
  destruct (parse_public_key component0) as [serverOneTimeKey|] eqn:Hparse;
    [|injection Hlogin as <-; destruct Hnew; by eapply Hlast].
  destruct components as [|component1 returnUrl]; [done|].
  destruct (recover_public_key _ _) as [serverAccountKey|] eqn:Hrecover;
    [|injection Hlogin as <-; destruct Hnew; by eapply Hlast].
  destruct (get_shared_secret _ _) as [secret|] eqn:Hsecret;
    [|injection Hlogin as <-; destruct Hnew; by eapply Hlast].
  destruct (client_wallet this) as [w|] eqn:Hw; [|done].
  assert (∀ this1,
            OpenInExternalBrowser url query fragment ∉ effects this1 →
            goToCreateAccount (unlock_answers inputs)
              (emit (MessageBox Warning "No Accounts Available") this1)
            ≠ Some this') as Hcreate.
  { intros this1 Hnew1 (n & l & Heq & Hl)%navigateTo_effects_kind.
    rewrite Heq in Hin. simpl in Hin.
    rewrite !elem_of_app, list_elem_of_singleton in Hin.
    destruct Hin as [[Hin|Hin]|[Hin%elem_of_replicate|Hin]];
      [done|done|by destruct Hin|].
    destruct Hl as [->| ->]; [by apply elem_of_nil in Hin|].
    by apply list_elem_of_singleton in Hin. }
  assert (∀ this1 loginUser,
            OpenInExternalBrowser url query fragment ∉ effects this1 →
            (if (loginUser =? "")%string then Some this1
             else if (loginUser =? "EMPTY")%string then
               goToCreateAccount (unlock_answers inputs)
                 (emit (MessageBox Warning "No Accounts Available") this1)
             else
               match wallet_sign_hash w loginUser (sha256_hash secret) with
               | None => Some (emit (MessageBox Warning "Unable to Login") this1)
               | Some signature =>
                   Some (emit
                           (OpenInExternalBrowser
                              ("http://" +:+ QString.join "/" returnUrl)
                              (QUrl_query
                                 ("http://" +:+ QString.join "/" returnUrl)
                               ++ [("client_key",
                                    as_string
                                      (get_public_key (generated_key inputs)));
                                   ("client_name", loginUser);
                                   ("server_key", as_string serverOneTimeKey);
                                   ("signed_secret", as_string signature)])%list
                              (as_string secret)) this1)
               end) = Some this' →
            ∃ signature,
              wallet_sign_hash w loginUser (sha256_hash secret)
              = Some signature ∧
              url = "http://" +:+ QString.join "/" returnUrl ∧
              fragment = as_string secret ∧
              query
              = (QUrl_query url
                 ++ [("client_key",
                      as_string (get_public_key (generated_key inputs)));
                     ("client_name", loginUser);
                     ("server_key", as_string serverOneTimeKey);
                     ("signed_secret", as_string signature)])%list)
    as Htail.
  { intros this1 loginUser Hnew1.
    destruct (loginUser =? "")%string; [by intros [= <-]|].
    destruct (loginUser =? "EMPTY")%string.
    - intros Hnavigate. by destruct (Hcreate this1 Hnew1).
    - destruct (wallet_sign_hash w loginUser (sha256_hash secret))
        as [signature|] eqn:Hsign;
        [|intros [= <-]; destruct Hnew1; by eapply Hlast].
      intros [= <-]. simpl in Hin.
      apply elem_of_app in Hin as [Hin|Hin%list_elem_of_singleton]; [done|].
      injection Hin as -> -> ->. by exists signature. }
  unfold getLoginUser in Hlogin.
  destruct (account_record inputs serverAccountKey) as [serverName|] eqn:Hrecord.
  - destruct (wallet_accounts w) as [|account [|account' accounts]] eqn:Haccounts.
    + simpl in Hlogin. by destruct (Hcreate this Hnew).
    + destruct (login_confirmed inputs) eqn:Hconfirmed.
      * apply Htail in Hlogin as (signature & Hsign & -> & -> & ->).
        2:{ simpl. rewrite elem_of_app, list_elem_of_singleton.
            by intros [?|?]. }
        exists component0, component1, returnUrl, serverOneTimeKey,
          serverAccountKey, secret, w, account, signature.
        by repeat (split; [by eauto|]).
      * simpl in Hlogin. injection Hlogin as <-. destruct Hnew.
        by eapply Hlast.
    + destruct (account_chosen inputs) as [chosen|] eqn:Hchosen.
      * apply Htail in Hlogin as (signature & Hsign & -> & -> & ->).
        2:{ simpl. rewrite elem_of_app, list_elem_of_singleton.
            by intros [?|?]. }
        exists component0, component1, returnUrl, serverOneTimeKey,
          serverAccountKey, secret, w, chosen, signature.
        rewrite Haccounts. repeat (split; [by eauto|]).
        split; [right; split; [simpl; lia|done]|done].
      * simpl in Hlogin. injection Hlogin as <-. destruct Hnew.
        by eapply Hlast.
  - destruct (_ <? 1); simpl in Hlogin; injection Hlogin as <-;
      destruct Hnew; by eapply Hlast.
Qed.

End MoreLoginFacts.

(** The login of the examples: one account, and the user confirms. *)
Lemma doLogin_opens_the_browser_after_consent_witness :
  ∃ w loginUser returnUrl secret signature,
    client_wallet Demo.window0 = Some w ∧
    wallet_accounts w = [loginUser] ∧
    login_confirmed Demo.the_login = true ∧
    wallet_sign_hash (Collaborators := Demo.collaborators) w loginUser
      (sha256_hash (Collaborators := Demo.collaborators) secret)
    = Some signature ∧
    "http://example.com/back" = "http://" +:+ QString.join "/" returnUrl.
Proof.
  destruct (doLogin_opens_the_browser_after_consent
              (env := Demo.collaborators)
              Demo.the_login ["KEY"; "SIG"; "example.com"; "back"]
              Demo.window0
              (emit (OpenInExternalBrowser "http://example.com/back"
                       [("client_key", "K1"); ("client_name", "alice");
                        ("server_key", "KEY");
                        ("signed_secret", "aliceK1KEY")]
                       "K1KEY")
                 (emit (MessageBox Question "Login") Demo.window0))
              "http://example.com/back"
              [("client_key", "K1"); ("client_name", "alice");
               ("server_key", "KEY"); ("signed_secret", "aliceK1KEY")]
              "K1KEY")
    as (component0 & component1 & returnUrl & serverOneTimeKey
        & serverAccountKey & secret & w & loginUser & signature
        & _ & _ & _ & _ & _ & Hw & Hconsent & Hsign & Hurl & _).
  - vm_compute. reflexivity.
  - vm_compute. set_solver.
  - vm_compute. set_solver.
  - exists w, loginUser, returnUrl, secret, signature.
    destruct Hconsent as [[Haccounts Hconfirmed]|[_ Hchosen]];
      [done|discriminate Hchosen].
Defined.

(** ** Actions without an open wallet *)

Section MoreWalletFacts.
Context {env : Collaborators}.

Lemma walletIsUnlocked_not_open prompt answers this w :
  client_wallet this = Some w →
  is_open w = false →
  walletIsUnlocked prompt answers this = Some (false, this).
Proof.
  intros Hw Hclosed. unfold walletIsUnlocked. by rewrite Hw, Hclosed.
Qed.

(** X26. While the wallet of the client is not open, the actions of the
    menus, of the location bar and of the page show no dialog, load
    nothing and leave the window as it is; [goToTransfer] and
    [goToRefCode] return before they read a component, also on an empty
    list. *)
Theorem actions_need_an_open_wallet this w :
  client_wallet this = Some w →
  is_open w = false →
  ∀ answers answers',
    goToHomepage answers this = Some this ∧
    goToMyAccounts answers this = Some this ∧
    goToAddContact answers this = Some this ∧
    goToCreateAccount answers this = Some this ∧
    (∀ accountName, goToAccount accountName answers this = Some this) ∧
    (∀ blockNumber, goToBlock blockNumber answers answers' this = Some this) ∧
    (∀ fromUserInput urlstr,
       changeLocation fromUserInput urlstr answers this = Some this) ∧
    (∀ arg components,
       goToTransfer arg components answers answers' this = Some this) ∧
    (∀ arg components,
       goToRefCode arg components answers answers' this = Some this).
Proof.
  intros Hw Hclosed answers answers'.
  unfold goToHomepage, goToMyAccounts, goToAddContact, goToCreateAccount,
    goToAccount, goToBlock, changeLocation, goToTransfer, goToRefCode,
    navigateTo.
  rewrite !(walletIsUnlocked_not_open _ _ _ w Hw Hclosed). simpl.
  repeat split.
Qed.

End MoreWalletFacts.

(** ** URLs that arrive before the window is shown *)

Section DeferralFacts.
Context {env : Collaborators}.

Lemma processCustomUrl_empty this :
  CUSTOM_URL_SCHEME ≠ "" → processCustomUrl "" this = this.
Proof.
  intros Hscheme. unfold processCustomUrl.
  change (QString.left "" (QString.indexOf "" ":")) with "".
  rewrite QString_toLower_empty.
  destruct (String.eqb_spec "" CUSTOM_URL_SCHEME) as [Heq|_]; [|done].
  by destruct Hscheme.
Qed.

Lemma deferCustomUrl_hidden urls s :
  isVisible s = false →
  foldl (λ s url, deferCustomUrl url s) s urls
  = {| mainWindow := mainWindow s; isVisible := false;
       _deferredUrl := default (_deferredUrl s) (last urls) |}.
Proof.
  intros Hhidden. revert s Hhidden.
  induction urls as [|url urls IH]; intros s Hhidden.
  - simpl. destruct s. simpl in *. by subst.
  - simpl. rewrite IH; unfold deferCustomUrl; rewrite Hhidden; [|done].
    simpl. f_equal. rewrite last_cons. by destruct (last urls).
Qed.

(** X27. While the window is hidden, URLs handed to [deferCustomUrl] are
    kept, not processed, and each replaces the one before: when the page
    has loaded, the window is shown and the last of them alone is
    processed. When the scheme macro is not empty, the handler processes
    nothing if no URL was deferred, and a deferred URL is processed only
    once. A file-open event is treated like a deferred URL, with the
    file name of the event, or its URL when the name is empty. *)
Theorem deferred_url_is_processed_when_shown s :
  isVisible s = false →
  CUSTOM_URL_SCHEME ≠ "" →
  (∀ urls url,
     loadFinished (foldl (λ s url, deferCustomUrl url s) s (urls ++ [url]))
     = {| mainWindow := processCustomUrl url (mainWindow s);
          isVisible := true; _deferredUrl := "" |}) ∧
  (_deferredUrl s = "" →
   loadFinished s
   = {| mainWindow := mainWindow s; isVisible := true;
        _deferredUrl := "" |}) ∧
  processDeferredUrl (loadFinished s) = loadFinished s ∧
  (∀ file url,
     eventFilter_FileOpen file url s
     = deferCustomUrl (if String.eqb file "" then url else file) s).
Proof.
  intros Hhidden Hscheme. split; [|split; [|split]].
  - intros urls url. rewrite deferCustomUrl_hidden by done.
    rewrite last_snoc. reflexivity.
  - intros Hnone. unfold loadFinished, processDeferredUrl. simpl.
    by rewrite Hnone, processCustomUrl_empty.
  - unfold loadFinished, processDeferredUrl. simpl.
    by rewrite processCustomUrl_empty.
  - intros file url. unfold eventFilter_FileOpen. by rewrite Hhidden.
Qed.

End DeferralFacts.

(** ** Crash detection and the crash report's log *)

(** X28. [detectCrash] reports a crash exactly when the settings hold
    [crashed] under [crash_state], and leaves [crashed] there: as long
    as nothing sets the key back, the next call reports a crash. No
    other key of the settings is changed. *)
Theorem detectCrash_marks_the_run (_settings : gmap string string) :
  ((detectCrash _settings).1 = true
   ↔ _settings !! "crash_state" = Some "crashed") ∧
  (detectCrash (detectCrash _settings).2).1 = true ∧
  (detectCrash (detectCrash _settings).2).2 = (detectCrash _settings).2 ∧
  ∀ key, key ≠ "crash_state" →
         (detectCrash _settings).2 !! key = _settings !! key.
Proof.
  unfold detectCrash. simpl. split; [|split; [|split]].
  - destruct (_settings !! "crash_state") as [state|]; simpl.
    + rewrite String.eqb_eq. split; congruence.
    + split; discriminate.
  - by rewrite lookup_insert_eq.
  - apply insert_insert_eq.
  - intros key Hkey. by rewrite lookup_insert_ne.
Qed.

Lemma tail_drop {A} (l : list A) : tail l = drop 1 l.
Proof. by destruct l. Qed.

Lemma copy_maxLineCount lines b :
  TLimitedFileBuffer._maxLineCount (TLimitedFileBuffer.copy lines b)
  = TLimitedFileBuffer._maxLineCount b.
Proof.
  unfold TLimitedFileBuffer.copy. revert b.
  induction lines as [|line lines IH]; intros b; [done|].
  simpl. by rewrite IH.
Qed.

(** X29. A [TLimitedFileBuffer] made for [n] lines and filled with the
    lines of a stream holds the last [n] lines of the stream in their
    order, all of them when the stream has no more than [n]; it never
    holds more than [n] lines. *)
Theorem TLimitedFileBuffer_keeps_the_last_lines (lines : list string) n :
  TLimitedFileBuffer._buffer
    (TLimitedFileBuffer.copy lines (TLimitedFileBuffer.make n))
  = drop (length lines - n) lines ∧
  (length (TLimitedFileBuffer._buffer
             (TLimitedFileBuffer.copy lines (TLimitedFileBuffer.make n)))
   ≤ n)%nat.
Proof.
  assert (TLimitedFileBuffer._buffer
            (TLimitedFileBuffer.copy lines (TLimitedFileBuffer.make n))
          = drop (length lines - n) lines) as Hbuffer.
  { induction lines as [|line lines IH] using rev_ind; [done|].
    unfold TLimitedFileBuffer.copy in *. rewrite foldl_app. simpl.
    fold (TLimitedFileBuffer.copy lines (TLimitedFileBuffer.make n)) in *.
    unfold TLimitedFileBuffer.push_back.
    rewrite copy_maxLineCount, IH. simpl.
    rewrite !length_app, length_drop. simpl.
    destruct (Nat.ltb_spec n (length lines - (length lines - n) + 1))
      as [Hfull|Hroom].
    - rewrite <- (drop_app_le lines [line]) by lia.
      rewrite tail_drop, drop_drop. f_equal. lia.
    - replace (length lines - n)%nat with 0%nat by lia.
      by replace (length lines + 1 - n)%nat with 0%nat by lia. }
  split; [exact Hbuffer|].
  rewrite Hbuffer, length_drop. lia.
Qed.

(** A wallet that is not open, and a user who would know the password. *)
Lemma actions_need_an_open_wallet_witness :
  goToHomepage (env := Demo.collaborators) [Some "secret"] Demo.closed_window
  = Some Demo.closed_window ∧
  goToTransfer (env := Demo.collaborators) (λ text _, text) []
    [Some "secret"] [] Demo.closed_window
  = Some Demo.closed_window.
Proof.
  destruct (actions_need_an_open_wallet (env := Demo.collaborators)
              Demo.closed_window
              {| is_open := false; is_unlocked := false;
                 wallet_password := "secret"; wallet_accounts := ["alice"] |}
              eq_refl eq_refl [Some "secret"] [])
    as (Hhome & _ & _ & _ & _ & _ & _ & Htransfer & _).
  split; [exact Hhome|apply Htransfer].
Defined.

(** Two URLs given to the hidden window of the examples. *)
Lemma deferred_url_is_processed_when_shown_witness :
  loadFinished (env := Demo.collaborators)
    (deferCustomUrl (env := Demo.collaborators) "xts:help"
       (deferCustomUrl (env := Demo.collaborators) "xts:home"
          Demo.hidden_shell))
  = {| mainWindow :=
         processCustomUrl (env := Demo.collaborators) "xts:help" Demo.window0;
       isVisible := true; _deferredUrl := "" |} ∧
  effects (mainWindow (loadFinished (env := Demo.collaborators)
                         Demo.hidden_shell)) = [].
Proof.
  destruct (deferred_url_is_processed_when_shown (env := Demo.collaborators)
              Demo.hidden_shell)
    as (Hlast & Hnone & _ & _).
  - reflexivity.
  - vm_compute. discriminate.
  - split.
    + exact (Hlast ["xts:home"] "xts:help").
    + rewrite Hnone; reflexivity.
Defined.

(** The link to an account of the examples. *)
Lemma processCustomUrl_loads_only_local_pages_witness :
  ∃ added,
    effects (processCustomUrl (env := Demo.collaborators)
               "xts://accounts/alice" Demo.window0)
    = (effects Demo.window0 ++ added)%list ∧
    ∀ e, e ∈ added →
         e = WebViewSetFocus ∨
         (∃ title, e = MessageBox Warning title) ∨
         (∃ path,
            e = WebViewLoad
                  (("http://" +:+ httpd_endpoint Demo.window0 +:+ "/#")
                     +:+ path)).
Proof.
  exact (proj2 (proj2 (processCustomUrl_loads_only_local_pages
                         (env := Demo.collaborators)
                         "xts://accounts/alice" Demo.window0))).
Defined.

(** Settings without the key: the first run finds no crash, and a run
    after it that was not closed does. *)
Lemma detectCrash_marks_the_run_witness :
  (detectCrash ∅).1 = false ∧ (detectCrash (detectCrash ∅).2).1 = true.
Proof.
  destruct (detectCrash_marks_the_run ∅) as (Hfirst & Hsecond & _).
  split; [|exact Hsecond].
  destruct (detectCrash ∅).1; [|reflexivity].
  destruct Hfirst as [Hfirst _]. specialize (Hfirst eq_refl).
  rewrite lookup_empty in Hfirst. discriminate Hfirst.
Defined.
